(** * Verification of [libs/data_utils.py]

    Shallow embedding of the functions of [data_utils.py] that map the
    sports-league API records onto the host media-center's video item.

    - A Python [str] is a list of Unicode code points ([list N]).
    - A JSON-shaped Python value is [pyval]; a [dict] is an association list
      in insertion order (keys are unique, as in a Python dict).
    - The parts of the Python runtime that depend on the Unicode character
      database ([str.lower], [str.isdigit], [int()] on digits and
      whitespace, case-insensitive regex matching), as well as [str()],
      [float()] and the settings module's [RATING_TYPES], are the fields of a
      [Runtime] record; theorems quantify over every runtime.
    - The calls made on the host objects (video info tag, list item) and on
      the network and cache collaborators are recorded in a trace; the
      answer of the network collaborator [api_utils.load_info] is a function
      [load] of the request parameters. *)

From Stdlib Require Import String Ascii DecimalString.
From Stdlib Require Import List NArith ZArith QArith Bool Lia RelationClasses.
Import ListNotations.
Open Scope list_scope.
Set Warnings "-register-all".
Open Scope nat_scope.

(* ------------------------------------------------------------------ *)
(** ** Python strings and values *)

Definition pystr := list N.

(** A string literal of the source, as code points. *)
Definition u (s : string) : pystr :=
  map (fun a => N_of_ascii a) (list_ascii_of_string s).

Inductive pyval : Type :=
| PNone
| PBool (b : bool)
| PInt (z : Z)
| PStr (s : pystr)
| PList (l : list pyval)
| PDict (d : list (pystr * pyval)).

Definition pydict := list (pystr * pyval).

Fixpoint str_eqb (a b : pystr) : bool :=
  match a, b with
  | [], [] => true
  | x :: a', y :: b' => N.eqb x y && str_eqb a' b'
  | _, _ => false
  end.

(** [d.get(k)]: [None] when the key is absent. *)
Fixpoint dict_get (d : pydict) (k : pystr) : option pyval :=
  match d with
  | [] => None
  | (k', v) :: d' => if str_eqb k k' then Some v else dict_get d' k
  end.

(** [d.get(k, default)] *)
Definition dict_get_default (d : pydict) (k : pystr) (default : pyval) : pyval :=
  match dict_get d k with Some v => v | None => default end.

(** [d[k] = v]: an existing key keeps its place, a new key goes last. *)
Fixpoint dict_set (d : pydict) (k : pystr) (v : pyval) : pydict :=
  match d with
  | [] => [(k, v)]
  | (k', v') :: d' =>
      if str_eqb k k' then (k', v) :: d' else (k', v') :: dict_set d' k v
  end.

(** Truth value testing ([if x:]). *)
Definition truthy (v : pyval) : bool :=
  match v with
  | PNone => false
  | PBool b => b
  | PInt z => negb (Z.eqb z 0)
  | PStr s => negb (Nat.eqb (length s) 0)
  | PList l => negb (Nat.eqb (length l) 0)
  | PDict d => negb (Nat.eqb (length d) 0)
  end.

(** Python exceptions raised by the code. *)
Inductive exn : Type :=
| ValueError
| TypeError
| KeyError
| AttributeError
| IndexError
| ReError.

Inductive res (A : Type) : Type :=
| Ok (a : A)
| Exc (e : exn).
Arguments Ok {A} a.
Arguments Exc {A} e.

(* ------------------------------------------------------------------ *)
(** ** The runtime: Unicode database, [str()], [float()], settings *)

Record Runtime : Type := {
  str_lower : pystr -> pystr;        (** [str.lower] *)
  char_isdigit : N -> bool;          (** one code point passes [str.isdigit] *)
  char_decimal : N -> option N;      (** decimal value of a digit, as [int()] reads it *)
  char_isspace : N -> bool;          (** whitespace stripped by [int()] *)
  char_fold : N -> N;                (** case folding of [re.IGNORECASE] *)
  to_str : pyval -> pystr;           (** [str(v)] of a value that is not a [str] *)
  py_float : pyval -> option Q;      (** [float(v)]; [None] when it raises *)
  rating_types : list pystr          (** [settings.RATING_TYPES] *)
}.

(** [str(v)], also [%s] formatting: a [str] is itself. *)
Definition py_str (R : Runtime) (v : pyval) : pystr :=
  match v with PStr s => s | _ => to_str R v end.

(* ------------------------------------------------------------------ *)
(** ** String operations *)

Fixpoint is_prefix (p s : pystr) : bool :=
  match p, s with
  | [], _ => true
  | x :: p', y :: s' => N.eqb x y && is_prefix p' s'
  | _ :: _, [] => false
  end.

(** [s.replace(old, new)] for a non-empty [old]: occurrences are replaced
    left to right without overlap.  The fuel is the length of [s]. *)
Fixpoint replace_fuel (fuel : nat) (old new s : pystr) : pystr :=
  match fuel with
  | O => s
  | S fuel' =>
      match s with
      | [] => []
      | c :: s' =>
          if is_prefix old s
          then new ++ replace_fuel fuel' old new (skipn (length old) s)
          else c :: replace_fuel fuel' old new s'
      end
  end.

(** With an empty [old], Python inserts [new] before every character and
    at the end. *)
Fixpoint interleave (new s : pystr) : pystr :=
  match s with
  | [] => new
  | c :: s' => new ++ c :: interleave new s'
  end.

Definition py_replace (s old new : pystr) : pystr :=
  match old with
  | [] => interleave new s
  | _ => replace_fuel (length s) old new s
  end.

(** [v.replace(old, new)] on a value: only [str] has the method. *)
Definition replace_v (v : pyval) (old new : pystr) : res pystr :=
  match v with
  | PStr s => Ok (py_replace s old new)
  | _ => Exc AttributeError
  end.

(** [v[:n]] *)
Definition slice_to (n : nat) (v : pyval) : res pyval :=
  match v with
  | PStr s => Ok (PStr (firstn n s))
  | PList l => Ok (PList (firstn n l))
  | _ => Exc TypeError
  end.

(** [str + v] *)
Definition str_add (s : pystr) (v : pyval) : res pyval :=
  match v with
  | PStr t => Ok (PStr (s ++ t))
  | _ => Exc TypeError
  end.

(** [int(s)] on a [str]: surrounding whitespace, an optional sign, then
    decimal digits with single underscores between digits. *)
Section IntParse.
Variable R : Runtime.

Fixpoint drop_space (s : pystr) : pystr :=
  match s with
  | c :: s' => if char_isspace R c then drop_space s' else s
  | [] => []
  end.

Definition strip (s : pystr) : pystr := rev (drop_space (rev (drop_space s))).

Fixpoint digits_us (acc : Z) (s : pystr) : option Z :=
  match s with
  | [] => Some acc
  | c :: s' =>
      if N.eqb c 95 (* '_' *)
      then match s' with
           | d :: s'' =>
               match char_decimal R d with
               | Some v => digits_us (acc * 10 + Z.of_N v)%Z s''
               | None => None
               end
           | [] => None
           end
      else match char_decimal R c with
           | Some v => digits_us (acc * 10 + Z.of_N v)%Z s'
           | None => None
           end
  end.

Definition int_body (s : pystr) : option Z :=
  match s with
  | c :: _ =>
      match char_decimal R c with
      | Some _ => digits_us 0 s
      | None => None
      end
  | [] => None
  end.

Definition int_of_str (s : pystr) : option Z :=
  match strip s with
  | 43 :: body => int_body body                       (* '+' *)
  | 45 :: body => option_map Z.opp (int_body body)   (* '-' *)
  | body => int_body body
  end%N.

(** [int(v)] *)
Definition py_int (v : pyval) : res Z :=
  match v with
  | PStr s => match int_of_str s with Some z => Ok z | None => Exc ValueError end
  | PInt z => Ok z
  | PBool b => Ok (if b then 1 else 0)%Z
  | _ => Exc TypeError
  end.
End IntParse.

(* ------------------------------------------------------------------ *)
(** ** Effects: host calls, network and cache, exceptions *)

Inductive event : Type :=
| SetTitle (v : pyval)
| SetOriginalTitle (v : pyval)
| SetTvShowTitle (v : pyval)
| SetPlot (s : pystr)
| SetPlotOutline (s : pystr)
| SetMediaType (s : pystr)
| SetEpisodeGuide (s : pystr)
| SetYear (z : Z)
| SetPremiered (v : pyval)
| SetFirstAired (v : pyval)
| SetSeason (z : Z)
| SetEpisode (z : Z)
| SetUniqueID (v : pyval) (type : pystr) (isDefault : bool)
| SetGenres (l : list pyval)
| SetStudios (l : list pyval)
| SetCountries (l : list pyval)
| SetRating (rating : Q) (votes : Z) (type : pystr) (isDefault : bool)
| AddAvailableArtwork (url : pystr) (art_type : pystr) (preview : pystr)
| AddSeason (num : Z) (name : pyval)
| SetAvailableFanart (l : list pystr)   (** called on the list item *)
| LoadInfo (params : pydict)            (** [api_utils.load_info] *)
| CacheShowInfo (info : pydict).        (** [cache.cache_show_info] *)

(** The state: the calls made so far, and the dict passed by reference to
    the function (the show or episode record, or the external-id map). *)
Record St : Type := mkSt { trace : list event; rec : pydict }.

Definition M (A : Type) : Type := St -> res A * St.

Definition ret {A} (a : A) : M A := fun st => (Ok a, st).
Definition raise {A} (e : exn) : M A := fun st => (Exc e, st).
Definition bind {A B} (m : M A) (k : A -> M B) : M B :=
  fun st => match m st with
            | (Ok a, st') => k a st'
            | (Exc e, st') => (Exc e, st')
            end.
Definition lift {A} (r : res A) : M A :=
  match r with Ok a => ret a | Exc e => raise e end.
Definition emit (ev : event) : M unit :=
  fun st => (Ok tt, mkSt (trace st ++ [ev]) (rec st)).
Definition get_rec : M pydict := fun st => (Ok (rec st), st).
(** [record[k] = v] on the dict in the state. *)
Definition set_key (k : pystr) (v : pyval) : M unit :=
  fun st => (Ok tt, mkSt (trace st) (dict_set (rec st) k v)).

Notation "x <- m ;; k" := (bind m (fun x => k))
  (at level 61, m at next level, right associativity).
Notation "m ;;; k" := (bind m (fun _ => k))
  (at level 61, right associativity).

(** [for x in l: body] *)
Fixpoint for_each {A} (l : list A) (body : A -> M unit) : M unit :=
  match l with
  | [] => ret tt
  | x :: l' => body x ;;; for_each l' body
  end.

(* ------------------------------------------------------------------ *)
(** ** [_clean_plot] *)

Definition CLEAN_PLOT_REPLACEMENTS : list (pystr * pystr) :=
  [(u "<b>", u "[B]"); (u "</b>", u "[/B]"); (u "<i>", u "[I]");
   (u "</i>", u "[/I]"); (u "</p><p>", u "[CR]")].

(** [TAG_RE.sub('', s)] with [TAG_RE = re.compile(r'<[^>]+>')].  A match
    starts at a ['<'] followed by at least one character other than ['>']
    and ends at the first ['>'] after it; the scan resumes after the match.
    [pending] holds, reversed, what follows an unmatched-yet ['<']: with no
    ['>'] later in the text it is kept verbatim. *)
Fixpoint tag_sub_go (pending : option pystr) (s : pystr) : pystr :=
  match s with
  | [] => match pending with None => [] | Some buf => 60%N :: rev buf end
  | c :: s' =>
      match pending with
      | None =>
          if N.eqb c 60 then tag_sub_go (Some []) s' else c :: tag_sub_go None s'
      | Some buf =>
          if N.eqb c 62
          then match buf with
               | [] => 60%N :: 62%N :: tag_sub_go None s'
               | _ => tag_sub_go None s'
               end
          else tag_sub_go (Some (c :: buf)) s'
      end
  end.

Definition TAG_RE_sub (s : pystr) : pystr := tag_sub_go None s.

Definition _clean_plot (plot : pystr) : pystr :=
  TAG_RE_sub (fold_left (fun p repl => py_replace p (fst repl) (snd repl))
                        CLEAN_PLOT_REPLACEMENTS plot).

(** [_clean_plot(v)] on a value that may not be a [str]. *)
Definition clean_plot_v (v : pyval) : res pystr :=
  match v with
  | PStr s => Ok (_clean_plot s)
  | _ => Exc AttributeError
  end.

(* ------------------------------------------------------------------ *)
(** ** Dict and iteration helpers *)

(** [v.get(k, default)] on a value: only [dict] has the method. *)
Definition py_get (v : pyval) (k : pystr) (default : pyval) : res pyval :=
  match v with
  | PDict d => Ok (dict_get_default d k default)
  | _ => Exc AttributeError
  end.

(** [for x in v:] on a value: a list, the characters of a [str], the keys of
    a [dict]. *)
Definition py_iter (v : pyval) : res (list pyval) :=
  match v with
  | PList l => Ok l
  | PStr s => Ok (map (fun c => PStr [c]) s)
  | PDict d => Ok (map (fun kv => PStr (fst kv)) d)
  | _ => Exc TypeError
  end.

(** [record.get(k, default)] on the dict passed by reference. *)
Definition get (k : pystr) (default : pyval) : M pyval :=
  d <- get_rec ;; ret (dict_get_default d k default).

(** The list item handed in by the host; the functions return it. *)
Inductive ListItem : Type := MkListItem (id : N).

Definition SLASH_ESC : pystr := u "\/".
Definition SLASH : pystr := u "/".
Definition PREVIEW : pystr := u "/preview".

Section Mapping.
Variable R : Runtime.

(* ------------------------------------------------------------------ *)
(** ** [_set_unique_ids] (the dict in the state is [ext_ids]) *)

Definition VALIDEXTIDS : list pystr := [u "tmdb_id"; u "imdb_id"; u "tvdb_id"].

Definition unique_id_step (kv : pystr * pyval) : M unit :=
  let (key, value) := kv in
  if existsb (str_eqb key) VALIDEXTIDS && truthy value
  then emit (SetUniqueID (PStr (py_str R value)) (firstn 4 key)
                         (str_eqb key (u "tmdb_id")))
  else ret tt.

Definition _set_unique_ids : M unit :=
  ext_ids <- get_rec ;; for_each ext_ids unique_id_step.

(* ------------------------------------------------------------------ *)
(** ** [_set_rating] (the dict in the state is [the_info]) *)

Fixpoint rating_loop (first : bool) (types : list pystr) : M unit :=
  match types with
  | [] => ret tt
  | rating_type :: types' =>
      info <- get_rec ;;
      ratings <- lift (py_get (PDict info) (u "ratings") (PDict [])) ;;
      entry <- lift (py_get ratings rating_type (PDict [])) ;;
      r <- lift (py_get entry (u "rating") (PStr (u "0"))) ;;
      rating <- lift (match py_float R r with Some q => Ok q | None => Exc ValueError end) ;;
      ratings2 <- lift (py_get (PDict info) (u "ratings") (PDict [])) ;;
      entry2 <- lift (py_get ratings2 rating_type (PDict [])) ;;
      v <- lift (py_get entry2 (u "votes") (PStr (u "0"))) ;;
      votes <- lift (py_int R v) ;;
      if Qlt_le_dec 0 rating
      then emit (SetRating rating votes rating_type first) ;;;
           rating_loop false types'
      else rating_loop first types'
  end.

Definition _set_rating : M unit := rating_loop true (rating_types R).

(* ------------------------------------------------------------------ *)
(** ** [_add_season_info] (the dict in the state is [show_info]) *)

Variable load : pydict -> pyval.   (** [api_utils.load_info(SEASON_URL, params)] *)

Fixpoint season_loop (acc : list pyval) (l : list pyval) : M (list pyval) :=
  match l with
  | [] => ret acc
  | season :: l' =>
      season_name <- lift (py_get season (u "strSeason") PNone) ;;
      if truthy season_name
      then s4 <- lift (slice_to 4 season_name) ;;
           season_num <- lift (py_int R s4) ;;
           emit (AddSeason season_num season_name) ;;;
           season_loop (acc ++ [PDict [(u "season_num", PInt season_num);
                                       (u "season_name", season_name)]]) l'
      else season_loop acc l'
  end.

Definition season_params (show_info : pydict) : pydict :=
  [(u "id", dict_get_default show_info (u "idLeague") (PInt 0))].

(** Returns [None] ([PNone]) or the list of seasons. *)
Definition _add_season_info : M pyval :=
  show_info <- get_rec ;;
  let params := season_params show_info in
  emit (LoadInfo params) ;;;
  let resp := load params in
  match resp with
  | PNone => ret PNone
  | _ =>
      seasons_v <- lift (py_get resp (u "seasons") PNone) ;;
      items <- lift (py_iter seasons_v) ;;
      seasons <- season_loop [] items ;;
      ret (PList seasons)
  end.

(* ------------------------------------------------------------------ *)
(** ** [set_show_artwork] (the dict in the state is [show_info]) *)

Fixpoint image_loop (fanart_list : list pystr) (images : list (pystr * pyval))
  : M (list pystr) :=
  match images with
  | [] => ret fanart_list
  | (image_type, image) :: images' =>
      if str_eqb image_type (u "fanart")
      then if truthy image
           then url <- lift (replace_v image SLASH_ESC SLASH) ;;
                image_loop (fanart_list ++ [url]) images'
           else image_loop fanart_list images'
      else if truthy image
           then theurl <- lift (replace_v image SLASH_ESC SLASH) ;;
                emit (AddAvailableArtwork theurl image_type (theurl ++ PREVIEW)) ;;;
                image_loop fanart_list images'
           else image_loop fanart_list images'
  end.

Definition artwork_images (show_info : pydict) : list (pystr * pyval) :=
  [(u "fanart", dict_get_default show_info (u "strFanart1") PNone);
   (u "fanart", dict_get_default show_info (u "strFanart2") PNone);
   (u "fanart", dict_get_default show_info (u "strFanart3") PNone);
   (u "fanart", dict_get_default show_info (u "strFanart1") PNone);
   (u "poster", dict_get_default show_info (u "strPoster") PNone);
   (u "banner", dict_get_default show_info (u "strBanner") PNone)].

Definition set_show_artwork (list_item : ListItem) : M ListItem :=
  show_info <- get_rec ;;
  fanart_list <- image_loop [] (artwork_images show_info) ;;
  (match fanart_list with
   | [] => ret tt
   | _ => emit (SetAvailableFanart fanart_list)
   end) ;;;
  ret list_item.

(* ------------------------------------------------------------------ *)
(** ** [add_main_show_info] (the dict in the state is [show_info]) *)

Definition getitem (d : pydict) (k : pystr) : res pyval :=
  match dict_get d k with Some v => Ok v | None => Exc KeyError end.

Definition add_main_show_info (list_item : ListItem) (full_info : bool)
  : M ListItem :=
  show_info <- get_rec ;;
  let showname := dict_get_default show_info (u "strLeague") PNone in
  plot <- lift (clean_plot_v (dict_get_default show_info (u "strDescriptionEN") (PStr []))) ;;
  emit (SetTitle showname) ;;;
  emit (SetOriginalTitle showname) ;;;
  emit (SetTvShowTitle showname) ;;;
  emit (SetPlot plot) ;;;
  emit (SetPlotOutline plot) ;;;
  emit (SetMediaType (u "tvshow")) ;;;
  id_league <- lift (getitem show_info (u "idLeague")) ;;
  emit (SetEpisodeGuide (py_str R id_league)) ;;;
  year4 <- lift (slice_to 4 (dict_get_default show_info (u "intFormedYear") (PStr []))) ;;
  year <- lift (py_int R year4) ;;
  emit (SetYear year) ;;;
  emit (SetPremiered (dict_get_default show_info (u "dateFirstEvent") (PStr []))) ;;;
  if full_info
  then
    emit (SetUniqueID (dict_get_default show_info (u "idLeague") PNone) (u "tsdb") true) ;;;
    emit (SetGenres [dict_get_default show_info (u "strSport") (PStr [])]) ;;;
    emit (SetStudios [dict_get_default show_info (u "strTvRights") (PStr [])]) ;;;
    emit (SetCountries [dict_get_default show_info (u "strCountry") (PStr [])]) ;;;
    list_item' <- set_show_artwork list_item ;;
    seasons <- _add_season_info ;;
    set_key (u "seasons") seasons ;;;
    show_info' <- get_rec ;;
    emit (CacheShowInfo show_info') ;;;
    ret list_item'
  else
    let image := dict_get_default show_info (u "strPoster") PNone in
    if truthy image
    then theurl <- lift (replace_v image SLASH_ESC SLASH) ;;
         emit (AddAvailableArtwork theurl (u "poster") (theurl ++ PREVIEW)) ;;;
         ret list_item
    else ret list_item.

(* ------------------------------------------------------------------ *)
(** ** [add_episode_info] (the dict in the state is [episode_info]) *)

(** ['%s.%s.%s' % (league, air_date.replace('-', ''), title)] *)
Definition dotted_title (league : pyval) (date : pystr) (title : pyval) : pystr :=
  py_str R league ++ u "." ++ date ++ u "." ++ py_str R title.

Definition add_episode_info (list_item : ListItem) (full_info : bool)
  : M ListItem :=
  episode_info <- get_rec ;;
  season <- lift (slice_to 4 (dict_get_default episode_info (u "strSeason") (PStr (u "0000")))) ;;
  let episode := dict_get_default episode_info (u "strEpisode") (PStr (u "0")) in
  default_title <- lift (str_add (u "Episode ") episode) ;;
  let title := dict_get_default episode_info (u "strEvent") default_title in
  season_num <- lift (py_int R season) ;;
  emit (SetSeason season_num) ;;;
  episode_num <- lift (py_int R episode) ;;
  emit (SetEpisode episode_num) ;;;
  emit (SetMediaType (u "episode")) ;;;
  let air_date := dict_get_default episode_info (u "dateEvent") PNone in
  title <- (if truthy air_date
            then emit (SetFirstAired air_date) ;;;
                 if negb full_info
                 then date <- lift (replace_v air_date (u "-") []) ;;
                      ret (PStr (dotted_title
                                   (dict_get_default episode_info (u "strLeague") (PStr []))
                                   date title))
                 else ret title
            else ret title) ;;
  emit (SetTitle title) ;;;
  if full_info
  then
    emit (SetTitle title) ;;;
    let raw_plot := dict_get_default episode_info (u "strDescriptionEN") PNone in
    (if truthy raw_plot
     then plot <- lift (clean_plot_v (dict_get_default episode_info (u "strDescriptionEN") (PStr []))) ;;
          emit (SetPlot plot) ;;; emit (SetPlotOutline plot)
     else ret tt) ;;;
    (if truthy air_date then emit (SetPremiered air_date) else ret tt) ;;;
    let rawurl := dict_get_default episode_info (u "strThumb") (PStr []) in
    (if truthy rawurl
     then theurl <- lift (replace_v rawurl SLASH_ESC SLASH) ;;
          emit (AddAvailableArtwork theurl (u "thumb") (theurl ++ PREVIEW))
     else ret tt) ;;;
    ret list_item
  else ret list_item.

End Mapping.

(* ------------------------------------------------------------------ *)
(** ** [parse_nfo_url] *)

(** [SHOW_ID_REGEXPS = (r'(thesportsdb)\.com/league/(\d+)')]: the
    parentheses do not build a tuple, the value is the [str] itself. *)
Definition SHOW_ID_REGEXPS : pystr := u "(thesportsdb)\.com/league/(\d+)".

Record UrlParseResult : Type := { provider : pystr; show_id : pystr }.

(** [for regexp in SHOW_ID_REGEXPS] iterates over the characters of the
    string, so [re.search] only ever receives one-character patterns.
    Their compiled forms, as Python's [re] parses them: *)
Inductive re1 : Type :=
| ReLit (c : N)     (** an ordinary character *)
| ReAny             (** ['.']: any character but a newline *)
| ReEmptyAt         (** ['^'], ['$'], ['|']: an empty match is always found *).

Definition re_compile1 (c : N) : res re1 :=
  match c with
  | 40 | 41 | 91 | 92 | 42 | 43 | 63 => Exc ReError
      (* '(' missing ), unterminated subpattern; ')' unbalanced parenthesis;
         '[' unterminated character set; '\' bad escape (end of pattern);
         '*' '+' '?' nothing to repeat *)
  | 46 => Ok ReAny
  | 94 | 36 | 124 => Ok ReEmptyAt
  | _ => Ok (ReLit c)
  end%N.

(** Whether [re.search(regexp, nfo, re.I)] finds a match. *)
Definition re_search1 (R : Runtime) (r : re1) (nfo : pystr) : bool :=
  match r with
  | ReLit c => existsb (fun x => N.eqb (char_fold R x) (char_fold R c)) nfo
  | ReAny => existsb (fun x => negb (N.eqb x 10)) nfo
  | ReEmptyAt => true
  end.

(** A match of a one-character pattern has no group 1, so
    [show_id_match.group(1)] raises [IndexError]. *)
Fixpoint nfo_loop (R : Runtime) (nfo : pystr) (regexps : pystr)
  : res (option UrlParseResult) :=
  match regexps with
  | [] => Ok None
  | regexp :: regexps' =>
      match re_compile1 regexp with
      | Exc e => Exc e
      | Ok r => if re_search1 R r nfo then Exc IndexError
                else nfo_loop R nfo regexps'
      end
  end.

Definition parse_nfo_url (R : Runtime) (nfo : pystr) : res (option UrlParseResult) :=
  nfo_loop R nfo SHOW_ID_REGEXPS.

(* ------------------------------------------------------------------ *)
(** ** [parse_media_id] *)

Record MediaIdQuery : Type := { mq_type : pystr; mq_title : pystr }.

(** [s.isdigit()] *)
Definition str_isdigit (R : Runtime) (s : pystr) : bool :=
  match s with
  | [] => false
  | _ => forallb (char_isdigit R) s
  end.

Definition parse_media_id (R : Runtime) (title : pystr) : option MediaIdQuery :=
  let title := str_lower R title in
  if is_prefix (u "tt") title && str_isdigit R (skipn 2 title)
  then Some {| mq_type := u "imdb_id"; mq_title := title |}
  else if is_prefix (u "imdb/tt") title && str_isdigit R (skipn 7 title)
  then Some {| mq_type := u "imdb_id"; mq_title := skipn 5 title |}
  else if is_prefix (u "tmdb/") title && str_isdigit R (skipn 5 title)
  then Some {| mq_type := u "tmdb_id"; mq_title := skipn 5 title |}
  else if is_prefix (u "tvdb/") title && str_isdigit R (skipn 5 title)
  then Some {| mq_type := u "tvdb_id"; mq_title := skipn 5 title |}
  else None.

(* ------------------------------------------------------------------ *)
(** ** Python equality, membership and the exception monad *)

Definition num_of (v : pyval) : option Z :=
  match v with
  | PBool b => Some (if b then 1 else 0)%Z
  | PInt z => Some z
  | _ => None
  end.

(** [a == b]: a [bool] compares as the [int] 0 or 1; lists compare element
    by element; a [dict] equals another with the same keys and equal
    values, whatever the order. *)
Fixpoint py_eqb (a b : pyval) : bool :=
  match a, b with
  | PNone, PNone => true
  | PStr s, PStr t => str_eqb s t
  | PList l1, PList l2 =>
      (fix go (l1 l2 : list pyval) : bool :=
         match l1, l2 with
         | [], [] => true
         | x :: l1', y :: l2' => py_eqb x y && go l1' l2'
         | _, _ => false
         end) l1 l2
  | PDict d1, PDict d2 =>
      Nat.eqb (length d1) (length d2) &&
      (fix go (d : list (pystr * pyval)) : bool :=
         match d with
         | [] => true
         | (k, v) :: d' =>
             match dict_get d2 k with
             | Some v' => py_eqb v v' && go d'
             | None => false
             end
         end) d1
  | _, _ =>
      match num_of a, num_of b with
      | Some x, Some y => Z.eqb x y
      | _, _ => false
      end
  end.

(** [x in l] on a list. *)
Definition py_in (x : pyval) (l : list pyval) : bool := existsb (fun e => py_eqb e x) l.

Definition rbind {A B} (r : res A) (k : A -> res B) : res B :=
  match r with Ok a => k a | Exc e => Exc e end.

Notation "x <-? r ;; k" := (rbind r (fun x => k))
  (at level 61, r at next level, right associativity).

(** [v[k]] with a [str] key: only a [dict] accepts it. *)
Definition py_getitem (v : pyval) (k : pystr) : res pyval :=
  match v with
  | PDict d => getitem d k
  | _ => Exc TypeError
  end.

(** [v.lower()]: only [str] has the method. *)
Definition lower_v (R : Runtime) (v : pyval) : res pystr :=
  match v with
  | PStr s => Ok (str_lower R s)
  | _ => Exc AttributeError
  end.

(* ------------------------------------------------------------------ *)
(** ** [_get_credits] *)

Fixpoint creators_loop (credits : list pyval) (items : list pyval) : res (list pyval) :=
  match items with
  | [] => Ok credits
  | item :: items' =>
      name <-? py_getitem item (u "name") ;;
      creators_loop (credits ++ [name]) items'
  end.

Fixpoint writers_loop (R : Runtime) (credits : list pyval) (items : list pyval)
  : res (list pyval) :=
  match items with
  | [] => Ok credits
  | item :: items' =>
      job <-? py_get item (u "job") (PStr []) ;;
      job_l <-? lower_v R job ;;
      isWriter <-? (if str_eqb job_l (u "writer") then Ok true
                    else dep <-? py_get item (u "department") (PStr []) ;;
                         dep_l <-? lower_v R dep ;;
                         Ok (str_eqb dep_l (u "writing"))) ;;
      if isWriter
      then name <-? py_get item (u "name") PNone ;;
           if negb (py_in name credits)
           then name' <-? py_getitem item (u "name") ;;
                writers_loop R (credits ++ [name']) items'
           else writers_loop R credits items'
      else writers_loop R credits items'
  end.

Definition _get_credits (R : Runtime) (show_info : pydict) : res (list pyval) :=
  created_by <-? py_iter (dict_get_default show_info (u "created_by") (PList [])) ;;
  credits <-? creators_loop [] created_by ;;
  crew_v <-? py_get (dict_get_default show_info (u "credits") (PDict [])) (u "crew") (PList []) ;;
  crew <-? py_iter crew_v ;;
  writers_loop R credits crew.

(* ------------------------------------------------------------------ *)
(** ** [_get_directors] *)

Fixpoint directors_loop (directors_ : list pyval) (items : list pyval) : res (list pyval) :=
  match items with
  | [] => Ok directors_
  | item :: items' =>
      job <-? py_get item (u "job") PNone ;;
      if py_eqb job (PStr (u "Director"))
      then name <-? py_getitem item (u "name") ;;
           directors_loop (directors_ ++ [name]) items'
      else directors_loop directors_ items'
  end.

Definition _get_directors (episode_info : pydict) : res (list pyval) :=
  crew_v <-? py_get (dict_get_default episode_info (u "credits") (PDict [])) (u "crew") (PList []) ;;
  crew <-? py_iter crew_v ;;
  directors_loop [] crew.

(* ------------------------------------------------------------------ *)
(** ** [_set_cast] *)

(** The host's [xbmc.Actor(name, role, order, thumbnail)]. *)
Record Actor : Type := {
  actor_name : pyval; actor_role : pyval; actor_order : pyval; actor_thumb : pyval }.

Section Cast.
(** [utils.safe_get(item, key)] and [settings.IMAGEROOTURL] are defined
    outside [data_utils.py]; the results hold for any of them. *)
Variable safe_get : pyval -> pystr -> res pyval.
Variable IMAGEROOTURL : pystr.

Fixpoint cast_loop (cast : list Actor) (items : list pyval) : res (list Actor) :=
  match items with
  | [] => Ok cast
  | item :: items' =>
      name <-? py_getitem item (u "name") ;;
      character_name <-? py_get item (u "character_name") (PStr []) ;;
      role <-? py_get item (u "character") character_name ;;
      order <-? py_getitem item (u "order") ;;
      profile <-? safe_get item (u "profile_path") ;;
      thumb <-? (match profile with
                 | PNone => Ok PNone
                 | _ => path <-? py_getitem item (u "profile_path") ;;
                        str_add IMAGEROOTURL path
                 end) ;;
      cast_loop (cast ++ [{| actor_name := name; actor_role := role;
                             actor_order := order; actor_thumb := thumb |}]) items'
  end.

(** [vtag.setCast(cast)] is the last statement: [Ok cast] is the list it
    is called with; on an exception it is not called. *)
Definition _set_cast (cast_info : pyval) : res (list Actor) :=
  items <-? py_iter cast_info ;; cast_loop [] items.
End Cast.

(* ------------------------------------------------------------------ *)
(** ** [_check_youtube] *)

Definition YOUTUBE_WATCH : pystr := u "https://www.youtube.com/watch?v=".
Definition VIDEO_UNAVAILABLE : pystr := u "Video unavailable".

(** [needle in s] on two [str]s. *)
Fixpoint str_contains (needle s : pystr) : bool :=
  is_prefix needle s || match s with [] => false | _ :: s' => str_contains needle s' end.

(** [needle in v] for a [str] needle. *)
Definition py_contains (needle : pystr) (v : pyval) : res bool :=
  match v with
  | PStr s => Ok (str_contains needle s)
  | PList l => Ok (py_in (PStr needle) l)
  | PDict d => Ok (match dict_get d needle with Some _ => true | None => false end)
  | _ => Exc TypeError
  end.

(** [load_text url] is the answer of
    [api_utils.load_info(url, resp_type='not_json')]; the URLs fetched are
    returned beside the result. *)
Definition _check_youtube (load_text : pystr -> pyval) (key : pyval)
  : list pystr * res bool :=
  match key with
  | PStr k =>
      let chk_link := YOUTUBE_WATCH ++ k in
      let check := load_text chk_link in
      ([chk_link],
       if negb (truthy check) then Ok false
       else match py_contains VIDEO_UNAVAILABLE check with
            | Ok true => Ok false
            | Ok false => Ok true
            | Exc e => Exc e
            end)
  | _ => ([], Exc TypeError)
  end.

(* ------------------------------------------------------------------ *)
(** ** A sample runtime

    [R0] agrees with CPython 3 on ASCII text and on the few non-ASCII code
    points it lists: the Arabic-Indic digits U+0660..U+0669 (decimal
    digits: [str.isdigit] and [int()] accept them) and the superscripts
    U+00B2, U+00B3, U+00B9 ([str.isdigit] accepts them, [int()] does not).
    It is used only to evaluate the functions on concrete inputs. *)

Definition ascii_lower (c : N) : N :=
  if (N.leb 65 c && N.leb c 90)%bool then (c + 32)%N else c.

Definition R0_decimal (c : N) : option N :=
  if (N.leb 48 c && N.leb c 57)%bool then Some (c - 48)%N
  else if (N.leb 1632 c && N.leb c 1641)%bool then Some (c - 1632)%N
  else None.

Definition R0_str (v : pyval) : pystr :=
  match v with
  | PNone => u "None"
  | PBool true => u "True"
  | PBool false => u "False"
  | PInt z => map (fun a => N_of_ascii a)
                  (list_ascii_of_string (NilEmpty.string_of_int (Z.to_int z)))
  | PStr s => s
  | _ => []
  end.

Definition R0_isdigit (c : N) : bool :=
  match R0_decimal c with
  | Some _ => true
  | None => existsb (N.eqb c) [178; 179; 185]%N
  end.

Definition R0_isspace (c : N) : bool :=
  existsb (N.eqb c) [9; 10; 11; 12; 13; 28; 29; 30; 31; 32; 133; 160]%N.

Definition R0_base : Runtime := {|
  str_lower := map ascii_lower;
  char_isdigit := R0_isdigit;
  char_decimal := R0_decimal;
  char_isspace := R0_isspace;
  char_fold := ascii_lower;
  to_str := R0_str;
  py_float := fun _ => None;
  rating_types := [u "imdb"; u "tmdb"]
|}.

(** [float()] of [R0] reads integer-valued strings only. *)
Definition R0 : Runtime := {|
  str_lower := map ascii_lower;
  char_isdigit := R0_isdigit;
  char_decimal := R0_decimal;
  char_isspace := R0_isspace;
  char_fold := ascii_lower;
  to_str := R0_str;
  py_float := fun v => match v with
                       | PStr s => option_map inject_Z (int_of_str R0_base s)
                       | PInt z => Some (inject_Z z)
                       | _ => None
                       end;
  rating_types := [u "imdb"; u "tmdb"]
|}.

(** ** Sample inputs *)

Definition li0 : ListItem := MkListItem 1.

(** A league record as the league lookup returns it. *)
Definition league0 : pydict :=
  [(u "idLeague", PStr (u "4328")); (u "strLeague", PStr (u "English Premier League"));
   (u "strDescriptionEN", PStr (u "The <b>top</b> league."));
   (u "intFormedYear", PStr (u "1992")); (u "strPoster", PStr (u "https:\/\/x\/p.jpg"));
   (u "strFanart1", PStr (u "https:\/\/x\/f.jpg"))].

(** The same record without [intFormedYear]. *)
Definition league_noyear : pydict :=
  [(u "idLeague", PStr (u "4328")); (u "strLeague", PStr (u "English Premier League"))].

(** An event record. *)
Definition event0 : pydict :=
  [(u "strSeason", PStr (u "2023-2024")); (u "strEpisode", PStr (u "5"));
   (u "strLeague", PStr (u "EPL")); (u "strEvent", PStr (u "Arsenal vs Chelsea"));
   (u "dateEvent", PStr (u "2023-08-11"))].

(** An event record whose season is not numeric. *)
Definition event_badseason : pydict := [(u "strSeason", PStr (u "abcd"))].

(** An event record whose episode is an [int]. *)
Definition event_intepisode : pydict :=
  [(u "strSeason", PStr (u "2023-2024")); (u "strEpisode", PInt 5);
   (u "strEvent", PStr (u "Arsenal vs Chelsea"))].

(** A league record without [idLeague]. *)
Definition league_noid : pydict :=
  [(u "strLeague", PStr (u "English Premier League"));
   (u "strDescriptionEN", PStr (u "The <b>top</b> league."))].

(** A league record with ratings. *)
Definition league_rated : pydict :=
  [(u "idLeague", PStr (u "4328"));
   (u "ratings", PDict [(u "imdb", PDict [(u "rating", PStr (u "8")); (u "votes", PStr (u "120"))]);
                        (u "tmdb", PDict [(u "rating", PStr (u "0"))])])].

(** A show record with creators and a crew. *)
Definition show_credits0 : pydict :=
  [(u "created_by", PList [PDict [(u "name", PStr (u "Ann"))]]);
   (u "credits", PDict [(u "crew", PList
      [PDict [(u "name", PStr (u "Bob")); (u "job", PStr (u "Writer"))];
       PDict [(u "name", PStr (u "Ann")); (u "department", PStr (u "Writing"))];
       PDict [(u "name", PStr (u "Cy")); (u "job", PStr (u "Director"))]])])].

(** A cast list as the show lookup returns it. *)
Definition cast0 : pyval :=
  PList [PDict [(u "name", PStr (u "Ann")); (u "character", PStr (u "Host"));
                (u "order", PInt 0); (u "profile_path", PStr (u "/a.jpg"))];
         PDict [(u "name", PStr (u "Bob")); (u "character_name", PStr (u "Guest"));
                (u "order", PInt 1)]].

(** A [safe_get] that answers [None] for a missing key. *)
Definition safe_get0 (item : pyval) (k : pystr) : res pyval :=
  match item with PDict d => Ok (dict_get_default d k PNone) | _ => Exc TypeError end.

(** A season lookup answering two seasons, one of them unnamed. *)
Definition load_seasons0 (params : pydict) : pyval :=
  PDict [(u "seasons", PList [PDict [(u "strSeason", PStr (u "2023-2024"))];
                              PDict [(u "strSeason", PStr [])]])].

(** ** Specification predicates *)

Definition preserves {A} (P : St -> St -> Prop) (m : M A) : Prop :=
  forall st, P st (snd (m st)).

(** The dict passed by reference is left as it is. *)
Definition same_rec (st st' : St) : Prop := rec st' = rec st.

(** Every key but [k] keeps its value. *)
Definition same_rec_except (k : pystr) (st st' : St) : Prop :=
  forall k', str_eqb k' k = false -> dict_get (rec st') k' = dict_get (rec st) k'.

(** Calls of the network and cache collaborators. *)
Definition is_io (ev : event) : bool :=
  match ev with LoadInfo _ | CacheShowInfo _ => true | _ => false end.

(** Only calls on the host objects are added, and the dict is left as it is. *)
Definition no_io (st st' : St) : Prop :=
  rec st' = rec st /\
  exists l, trace st' = trace st ++ l /\ forallb (fun ev => negb (is_io ev)) l = true.

(** Calls are only appended to the trace. *)
Definition trace_ext (st st' : St) : Prop := exists l, trace st' = trace st ++ l.

(** After a ['<'] of the output comes either ['>'] or no ['>'] at all. *)
Definition lt_ok (o : pystr) : Prop :=
  forall a b, o = a ++ 60%N :: b -> (exists b', b = 62%N :: b') \/ ~ In 62%N b.

(** [o] contains a match of [<[^>]+>]. *)
Definition has_tag (o : pystr) : Prop :=
  exists a body b, o = a ++ 60%N :: body ++ 62%N :: b /\ body <> [] /\ ~ In 62%N body.

Definition str_field (d : pydict) (k dflt : pystr) : pystr :=
  match dict_get d k with Some (PStr s) => s | _ => dflt end.

(** An image field that [set_show_artwork] can read: a [str], or a falsy
    value (absent fields read as [None]). *)
Definition url_ok (v : pyval) : Prop :=
  match v with PStr _ => True | _ => truthy v = false end.

(** [image.replace('\/', '/')] *)
Definition norm_url (s : pystr) : pystr := py_replace s SLASH_ESC SLASH.

Definition fanart_of (v : pyval) : list pystr :=
  match v with PStr ((_ :: _) as s) => [norm_url s] | _ => [] end.

Definition art_of (art_type : pystr) (v : pyval) : list event :=
  match v with
  | PStr ((_ :: _) as s) => [AddAvailableArtwork (norm_url s) art_type (norm_url s ++ PREVIEW)]
  | _ => []
  end.

(** Each name of [w] differs, by [==], from every name before it. *)
Fixpoint fresh (acc w : list pyval) : Prop :=
  match w with
  | [] => True
  | x :: w' => py_in x acc = false /\ fresh (acc ++ [x]) w'
  end.

(** The test of [_get_directors]: [item.get('job') == 'Director']. *)
Definition is_director (d : pydict) : bool :=
  py_eqb (dict_get_default d (u "job") PNone) (PStr (u "Director")).

(** The actor [a] built by [_set_cast] from the cast entry [item]. *)
Definition actor_of (safe_get : pyval -> pystr -> res pyval) (root : pystr)
  (item : pyval) (a : Actor) : Prop :=
  exists d, item = PDict d /\
    dict_get d (u "name") = Some (actor_name a) /\
    actor_role a = dict_get_default d (u "character")
                     (dict_get_default d (u "character_name") (PStr [])) /\
    dict_get d (u "order") = Some (actor_order a) /\
    exists p, safe_get item (u "profile_path") = Ok p /\
      (p = PNone -> actor_thumb a = PNone) /\
      (p <> PNone -> exists s, dict_get d (u "profile_path") = Some (PStr s) /\
                               actor_thumb a = PStr (root ++ s)).

(** A [setRating] call with a positive rating. *)
Definition positive_rating (ev : event) : Prop :=
  exists q votes t b, ev = SetRating q votes t b /\ Qlt 0 q.

Definition is_default_rating (ev : event) : bool :=
  match ev with SetRating _ _ _ b => b | _ => false end.

(** The first call has [isDefault = first], the later ones [False]. *)
Definition default_flags (first : bool) (l : list event) : Prop :=
  match l with
  | [] => True
  | e :: l' => is_default_rating e = first /\ Forall (fun e => is_default_rating e = false) l'
  end.

(* ================================================================== *)
(** * Lemmas *)

(** ** Strings and dicts *)

Lemma str_eqb_eq : forall a b, str_eqb a b = true <-> a = b.
Proof.
  induction a as [|x a IH]; intros [|y b]; simpl; try (split; congruence).
  rewrite andb_true_iff, N.eqb_eq, IH. split.
  - intros [-> ->]. reflexivity.
  - intros H. injection H as -> ->. auto.
Qed.

Lemma str_eqb_refl : forall a, str_eqb a a = true.
Proof. intros a. apply str_eqb_eq. reflexivity. Qed.

Lemma dict_get_set_other : forall d k k' v,
  str_eqb k' k = false -> dict_get (dict_set d k v) k' = dict_get d k'.
Proof.
  induction d as [|[k0 v0] d IH]; intros k k' v Hne; simpl.
  - rewrite Hne. reflexivity.
  - destruct (str_eqb k k0) eqn:E; simpl.
    + apply str_eqb_eq in E. subst k0. rewrite Hne. reflexivity.
    + destruct (str_eqb k' k0); [reflexivity | apply IH; exact Hne].
Qed.

(** ** Invariants of the state preserved by a computation *)

Section Preserves.
Context (P : St -> St -> Prop) `{PreOrder St P}.

Lemma pres_ret {A} (a : A) : preserves P (ret a).
Proof. intros st. simpl. reflexivity. Qed.

Lemma pres_raise {A} (e : exn) : preserves P (@raise A e).
Proof. intros st. simpl. reflexivity. Qed.

Lemma pres_lift {A} (r : res A) : preserves P (lift r).
Proof. destruct r; [apply pres_ret | apply pres_raise]. Qed.

Lemma pres_get_rec : preserves P get_rec.
Proof. intros st. simpl. reflexivity. Qed.

Lemma pres_bind {A B} (m : M A) (k : A -> M B) :
  preserves P m -> (forall a, preserves P (k a)) -> preserves P (bind m k).
Proof.
  intros Hm Hk st. unfold bind. specialize (Hm st).
  destruct (m st) as [[a|e] st'] eqn:E; simpl in *.
  - transitivity st'; [exact Hm | apply Hk].
  - exact Hm.
Qed.

Lemma pres_for_each {A} (l : list A) (body : A -> M unit) :
  (forall x, preserves P (body x)) -> preserves P (for_each l body).
Proof.
  intros Hb. induction l as [|x l IH]; simpl.
  - apply pres_ret.
  - apply pres_bind; [apply Hb | intros _; exact IH].
Qed.
End Preserves.

Ltac pres_step :=
  match goal with
  | |- preserves ?P (bind _ _) => apply (pres_bind P); [ | intros ?]
  | |- preserves ?P (ret _) => apply (pres_ret P)
  | |- preserves ?P (raise _) => apply (pres_raise P)
  | |- preserves ?P (lift _) => apply (pres_lift P)
  | |- preserves ?P get_rec => apply (pres_get_rec P)
  | |- preserves ?P (for_each _ _) => apply (pres_for_each P); intros ?
  | |- preserves _ (if ?b then _ else _) => destruct b
  | |- preserves _ (match ?x with _ => _ end) => destruct x
  end.

#[export] Instance same_rec_preorder : PreOrder same_rec.
Proof.
  split; unfold same_rec; [intros st; reflexivity |].
  intros x y z H1 H2. congruence.
Qed.

#[export] Instance same_rec_except_preorder k : PreOrder (same_rec_except k).
Proof.
  split; unfold same_rec_except; [intros st k' _; reflexivity |].
  intros x y z H1 H2 k' Hk. rewrite H2 by exact Hk. apply H1, Hk.
Qed.

#[export] Instance no_io_preorder : PreOrder no_io.
Proof.
  split; unfold no_io.
  - intros st. split; [reflexivity|]. exists []. rewrite app_nil_r. split; reflexivity.
  - intros x y z [R1 [l1 [T1 F1]]] [R2 [l2 [T2 F2]]]. split; [congruence|].
    exists (l1 ++ l2). rewrite T2, T1, app_assoc, forallb_app, F1, F2. split; reflexivity.
Qed.

#[export] Instance trace_ext_preorder : PreOrder trace_ext.
Proof.
  split; unfold trace_ext.
  - intros st. exists []. rewrite app_nil_r. reflexivity.
  - intros x y z [l1 T1] [l2 T2]. exists (l1 ++ l2). rewrite T2, T1, app_assoc. reflexivity.
Qed.

Lemma emit_same_rec ev : preserves same_rec (emit ev).
Proof. intros st. reflexivity. Qed.

Lemma emit_same_rec_except k ev : preserves (same_rec_except k) (emit ev).
Proof. intros st k' _. reflexivity. Qed.

Lemma emit_no_io ev : is_io ev = false -> preserves no_io (emit ev).
Proof.
  intros Hio st. split; [reflexivity|]. exists [ev]. simpl. rewrite Hio. split; reflexivity.
Qed.

Lemma emit_trace_ext ev : preserves trace_ext (emit ev).
Proof. intros st. exists [ev]. reflexivity. Qed.

Lemma set_key_same_rec_except k v : preserves (same_rec_except k) (set_key k v).
Proof. intros st k' Hk. simpl. apply dict_get_set_other, Hk. Qed.

Lemma same_rec_sub_except k st st' : same_rec st st' -> same_rec_except k st st'.
Proof. unfold same_rec, same_rec_except. intros E k' _. rewrite E. reflexivity. Qed.

Lemma pres_weaken {A} (P Q : St -> St -> Prop) (m : M A) :
  (forall st st', P st st' -> Q st st') -> preserves P m -> preserves Q m.
Proof. intros HPQ Hm st. apply HPQ, Hm. Qed.

Lemma no_io_same_rec st st' : no_io st st' -> same_rec st st'.
Proof. intros [E _]. exact E. Qed.

(** ** The mapping functions only append host calls *)

Ltac pres_tac HE :=
  repeat (pres_step || (apply HE; reflexivity)).

Section Frames.
Context (P : St -> St -> Prop) `{PreOrder St P}.
Hypothesis HE : forall ev, is_io ev = false -> preserves P (emit ev).
Variable R : Runtime.

Lemma set_unique_ids_pres : preserves P (_set_unique_ids R).
Proof. unfold _set_unique_ids, unique_id_step. pres_tac HE. Qed.

Lemma rating_loop_pres : forall first types, preserves P (rating_loop R first types).
Proof.
  intros first types. revert first.
  induction types as [|t types IH]; intros first; simpl; pres_tac HE; apply IH.
Qed.

Lemma set_rating_pres : preserves P (_set_rating R).
Proof. apply rating_loop_pres. Qed.

Lemma season_loop_pres : forall acc l, preserves P (season_loop R acc l).
Proof.
  intros acc l. revert acc.
  induction l as [|x l IH]; intros acc; simpl; pres_tac HE; apply IH.
Qed.

Lemma image_loop_pres : forall fl imgs, preserves P (image_loop fl imgs).
Proof.
  intros fl imgs. revert fl.
  induction imgs as [|[t img] imgs IH]; intros fl; simpl; pres_tac HE; apply IH.
Qed.

Lemma set_show_artwork_pres li : preserves P (set_show_artwork li).
Proof.
  unfold set_show_artwork. pres_tac HE; apply image_loop_pres.
Qed.

Lemma add_episode_info_pres li full : preserves P (add_episode_info R li full).
Proof. unfold add_episode_info. pres_tac HE. Qed.

Lemma add_season_info_pres load :
  (forall params, preserves P (emit (LoadInfo params))) ->
  preserves P (_add_season_info R load).
Proof.
  intros HL. unfold _add_season_info.
  pres_tac HE; try apply HL; apply season_loop_pres.
Qed.
End Frames.

Lemma add_main_show_info_no_io R load li : preserves no_io (add_main_show_info R load li false).
Proof.
  unfold add_main_show_info. cbn beta iota.
  pres_tac emit_no_io.
Qed.

Lemma add_main_show_info_except_seasons R load li full :
  preserves (same_rec_except (u "seasons")) (add_main_show_info R load li full).
Proof.
  assert (HE : forall ev, is_io ev = false -> preserves (same_rec_except (u "seasons")) (emit ev))
    by (intros ev _; apply emit_same_rec_except).
  unfold add_main_show_info.
  pres_tac HE;
    try apply emit_same_rec_except;
    try apply set_key_same_rec_except;
    try (apply set_show_artwork_pres; auto with typeclass_instances);
    try (apply add_season_info_pres; auto with typeclass_instances; intros; apply emit_same_rec_except).
Qed.

(** C7: every mapping function leaves its input record as it is, except
    that [add_main_show_info] with [full_info = True] may change the
    ['seasons'] key of the show record (it stores the seasons there); with
    [full_info = False], [add_main_show_info] makes no network fetch and no
    cache write: only calls on the host objects are added to the trace.
    This holds on every path, also when an exception is raised. *)
Theorem mapping_functions_frame : forall R load li full st,
  rec (snd (_set_unique_ids R st)) = rec st /\
  rec (snd (_set_rating R st)) = rec st /\
  rec (snd (_add_season_info R load st)) = rec st /\
  rec (snd (set_show_artwork li st)) = rec st /\
  rec (snd (add_episode_info R li full st)) = rec st /\
  rec (snd (add_main_show_info R load li false st)) = rec st /\
  (exists l, trace (snd (add_main_show_info R load li false st)) = trace st ++ l /\
             forallb (fun ev => negb (is_io ev)) l = true) /\
  (forall k, str_eqb k (u "seasons") = false ->
     dict_get (rec (snd (add_main_show_info R load li true st))) k = dict_get (rec st) k).
Proof.
  intros R load li full st.
  assert (HE : forall ev, is_io ev = false -> preserves same_rec (emit ev))
    by (intros ev _; apply emit_same_rec).
  repeat split.
  - apply (set_unique_ids_pres same_rec HE).
  - apply (set_rating_pres same_rec HE).
  - apply (add_season_info_pres same_rec HE). intros params. apply emit_same_rec.
  - apply (set_show_artwork_pres same_rec HE).
  - apply (add_episode_info_pres same_rec HE).
  - apply (add_main_show_info_no_io R load li st).
  - apply (add_main_show_info_no_io R load li st).
  - intros k Hk. apply (add_main_show_info_except_seasons R load li true st k Hk).
Qed.

(** ** [TAG_RE.sub] leaves no tag behind *)

Lemma tag_sub_go_no_gt : forall s buf,
  ~ In 62%N s -> tag_sub_go (Some buf) s = 60%N :: rev buf ++ s.
Proof.
  induction s as [|c s IH]; intros buf Hs; simpl.
  - rewrite app_nil_r. reflexivity.
  - assert (Hc : c <> 62%N) by (intros ->; apply Hs; left; reflexivity).
    apply N.eqb_neq in Hc. rewrite Hc.
    rewrite IH by (intros Hin; apply Hs; right; exact Hin).
    simpl. rewrite <- app_assoc. reflexivity.
Qed.

Lemma tag_sub_go_gt : forall x y buf,
  ~ In 62%N x ->
  tag_sub_go (Some buf) (x ++ 62%N :: y) =
  match rev x ++ buf with
  | [] => 60%N :: 62%N :: tag_sub_go None y
  | _ => tag_sub_go None y
  end.
Proof.
  induction x as [|c x IH]; intros y buf Hx; simpl.
  - destruct buf; reflexivity.
  - assert (Hc : c <> 62%N) by (intros ->; apply Hx; left; reflexivity).
    apply N.eqb_neq in Hc. rewrite Hc.
    rewrite IH by (intros Hin; apply Hx; right; exact Hin).
    rewrite <- app_assoc. simpl.
    destruct (rev x); reflexivity.
Qed.

Lemma split_first : forall (c : N) s,
  In c s -> exists x y, s = x ++ c :: y /\ ~ In c x.
Proof.
  intros c s. induction s as [|d s IH]; intros Hin; [destruct Hin|].
  destruct (N.eq_dec d c) as [->|Hne].
  - exists [], s. split; [reflexivity | intros []].
  - destruct Hin as [E|Hin]; [congruence|].
    destruct (IH Hin) as [x [y [E Hx]]].
    exists (d :: x), y. split; [rewrite E; reflexivity|].
    intros [E'|H']; [congruence | exact (Hx H')].
Qed.

Lemma lt_ok_cons : forall c o, c <> 60%N -> lt_ok o -> lt_ok (c :: o).
Proof.
  intros c o Hc Ho a b E.
  destruct a as [|c' a]; simpl in E; injection E as E1 E2; [congruence|].
  apply (Ho a b E2).
Qed.

Lemma lt_ok_no_gt : forall o, ~ In 62%N o -> lt_ok o.
Proof.
  intros o Ho a b E. right. intros Hb. apply Ho. rewrite E.
  apply in_or_app. right. right. exact Hb.
Qed.

Lemma tag_sub_go_lt_ok : forall n s, length s <= n -> lt_ok (tag_sub_go None s).
Proof.
  induction n as [|n IH]; intros s Hlen.
  - destruct s; [| simpl in Hlen; lia]. simpl. intros a b E.
    destruct a; discriminate.
  - destruct s as [|c s]; simpl.
    + intros a b E. destruct a; discriminate.
    + simpl in Hlen.
      destruct (N.eqb c 60) eqn:Ec.
      * apply N.eqb_eq in Ec. subst c.
        destruct (in_dec N.eq_dec 62%N s) as [Hin|Hnin].
        -- destruct (split_first _ _ Hin) as [x [y [E Hx]]]. subst s.
           rewrite tag_sub_go_gt by exact Hx.
           rewrite length_app in Hlen. simpl in Hlen.
           assert (Hy : lt_ok (tag_sub_go None y)) by (apply IH; lia).
           rewrite app_nil_r. destruct (rev x).
           ++ intros a b E. destruct a as [|c a]; simpl in E.
              ** injection E as E2. left. eexists. symmetry. exact E2.
              ** injection E as E1 E2. destruct a as [|c' a]; simpl in E2.
                 { discriminate E2. }
                 injection E2 as E3 E4. apply (Hy a b E4).
           ++ exact Hy.
        -- rewrite tag_sub_go_no_gt by exact Hnin. simpl.
           apply lt_ok_no_gt. intros [E|E]; [discriminate | exact (Hnin E)].
      * apply lt_ok_cons; [apply N.eqb_neq, Ec|]. apply IH. lia.
Qed.

Lemma TAG_RE_sub_no_tag : forall s, ~ has_tag (TAG_RE_sub s).
Proof.
  intros s [a [body [b [E [Hne Hbody]]]]].
  destruct (tag_sub_go_lt_ok (length s) s (le_n _) a (body ++ 62%N :: b) E)
    as [[b' Eb] | Hno].
  - destruct body as [|c body]; [congruence|].
    simpl in Eb. injection Eb as Ec _. apply Hbody. left. exact Ec.
  - apply Hno. apply in_or_app. right. left. reflexivity.
Qed.

(** C8: [_clean_plot] applies the five replacements of
    [CLEAN_PLOT_REPLACEMENTS] in their order, then removes the tags left
    with [TAG_RE] (a tag is ['<'], one or more characters other than ['>'],
    then the first ['>']): its result contains no such tag.  On
    ["<b>Hi</b></p><p>Bye<i>!</i>"] and ["foo<div>bar</div>"] it gives ["[B]Hi[/B][CR]Bye[I]![/I]"] and
    ["foobar"]. *)
Theorem clean_plot_spec : forall plot,
  _clean_plot plot =
    TAG_RE_sub
      (py_replace
         (py_replace
            (py_replace
               (py_replace
                  (py_replace plot (u "<b>") (u "[B]"))
                  (u "</b>") (u "[/B]"))
               (u "<i>") (u "[I]"))
            (u "</i>") (u "[/I]"))
         (u "</p><p>") (u "[CR]")) /\
  ~ has_tag (_clean_plot plot) /\
  _clean_plot (u "<b>Hi</b></p><p>Bye<i>!</i>") = u "[B]Hi[/B][CR]Bye[I]![/I]" /\
  _clean_plot (u "foo<div>bar</div>") = u "foobar".
Proof.
  intros plot. split; [reflexivity|]. split; [apply TAG_RE_sub_no_tag|].
  split; vm_compute; reflexivity.
Qed.

(** C1: [SHOW_ID_REGEXPS] is a [str], not a one-element tuple, so [parse_nfo_url] tries its characters as
    patterns; the first one, ['('], does not compile and [re.search]
    raises [re.error] on every input, also on
    ["...thesportsdb.com/league/4328"] and on ["no match here"]. *)
Theorem parse_nfo_url_always_raises : forall R nfo,
  parse_nfo_url R nfo = Exc ReError.
Proof. intros R nfo. reflexivity. Qed.

(** ** [_set_unique_ids] *)

Lemma unique_ids_loop : forall R l st,
  for_each l (unique_id_step R) st =
  (Ok tt, mkSt (trace st ++
                map (fun kv => SetUniqueID (PStr (py_str R (snd kv))) (firstn 4 (fst kv))
                                           (str_eqb (fst kv) (u "tmdb_id")))
                    (filter (fun kv => existsb (str_eqb (fst kv)) VALIDEXTIDS && truthy (snd kv)) l))
               (rec st)).
Proof.
  intros R l. induction l as [|[k v] l IH]; intros [tr d].
  - simpl. rewrite app_nil_r. reflexivity.
  - cbn [for_each filter map]. unfold bind at 1, unique_id_step. cbn [fst snd].
    destruct (existsb (str_eqb k) VALIDEXTIDS && truthy v).
    + unfold emit. rewrite IH. simpl. rewrite <- app_assoc. reflexivity.
    + unfold ret. rewrite IH. reflexivity.
Qed.

(** C9: [_set_unique_ids] registers, in the order of the mapping, exactly
    the entries whose key is one of [tmdb_id], [imdb_id], [tvdb_id] and
    whose value is truthy, each as [setUniqueID(str(value), type=key[:4],
    isDefault=(key == 'tmdb_id'))]; it raises nothing.  On
    [{tmdb_id: "42", imdb_id: "", tvdb_id: "7"}] it registers
    [("42", "tmdb", True)] and [("7", "tvdb", False)] only. *)
Theorem set_unique_ids_spec : forall R st,
  _set_unique_ids R st =
  (Ok tt, mkSt (trace st ++
                map (fun kv => SetUniqueID (PStr (py_str R (snd kv))) (firstn 4 (fst kv))
                                           (str_eqb (fst kv) (u "tmdb_id")))
                    (filter (fun kv => existsb (str_eqb (fst kv)) VALIDEXTIDS && truthy (snd kv))
                            (rec st)))
               (rec st)) /\
  _set_unique_ids R (mkSt [] [(u "tmdb_id", PStr (u "42")); (u "imdb_id", PStr (u ""));
                              (u "tvdb_id", PStr (u "7"))]) =
  (Ok tt, mkSt [SetUniqueID (PStr (u "42")) (u "tmdb") true;
                SetUniqueID (PStr (u "7")) (u "tvdb") false]
               [(u "tmdb_id", PStr (u "42")); (u "imdb_id", PStr (u ""));
                (u "tvdb_id", PStr (u "7"))]).
Proof.
  intros R st. split.
  - unfold _set_unique_ids, bind, get_rec. apply unique_ids_loop.
  - unfold _set_unique_ids, bind, get_rec. rewrite unique_ids_loop. reflexivity.
Qed.

(** ** [_add_season_info] *)

(** C2: when the season fetch returns [None], [_add_season_info]
    only records the fetch, returns [None], registers no season and raises
    nothing.  A response that is not [None] but carries no ['seasons'] list
    (an empty dict, or ['seasons'] set to [None]) is not treated as a failed
    fetch: iterating [resp.get('seasons')] raises [TypeError]. *)
Theorem add_season_info_none_noop : forall R load st,
  (load (season_params (rec st)) = PNone ->
   _add_season_info R load st =
   (Ok PNone, mkSt (trace st ++ [LoadInfo (season_params (rec st))]) (rec st))) /\
  (forall d, load (season_params (rec st)) = PDict d ->
   dict_get_default d (u "seasons") PNone = PNone ->
   fst (_add_season_info R load st) = Exc TypeError).
Proof.
  intros R load [tr si]. split.
  - intros Hnone. unfold _add_season_info, bind, get_rec, emit. simpl in *.
    rewrite Hnone. reflexivity.
  - intros d Hd Hs. unfold _add_season_info, bind, get_rec, emit. simpl in *.
    rewrite Hd. simpl. rewrite Hs. reflexivity.
Qed.

(** ** [parse_media_id] *)

Lemma is_prefix_app : forall p d, is_prefix p (p ++ d) = true.
Proof. induction p as [|x p IH]; intros d; simpl; [reflexivity|]. rewrite N.eqb_refl. apply IH. Qed.

Lemma skipn_prefix : forall (p d : pystr), skipn (length p) (p ++ d) = d.
Proof. induction p as [|x p IH]; intros d; simpl; [reflexivity | apply IH]. Qed.

Lemma is_prefix_split : forall p t, is_prefix p t = true -> t = p ++ skipn (length p) t.
Proof.
  induction p as [|x p IH]; intros [|y t]; simpl; try reflexivity; try discriminate.
  intros H. apply andb_true_iff in H as [Hx Ht]. apply N.eqb_eq in Hx. subst y.
  f_equal. apply IH, Ht.
Qed.

Lemma str_isdigit_spec : forall R d,
  str_isdigit R d = true <-> d <> [] /\ Forall (fun c => char_isdigit R c = true) d.
Proof.
  intros R [|c d]; unfold str_isdigit.
  - split; [discriminate | intros [H _]; congruence].
  - rewrite forallb_forall, Forall_forall.
    split; [intros H; split; [discriminate | exact H] | intros [_ H]; exact H].
Qed.

(** C3: [parse_media_id] lower-cases its input [t] and
    classifies it by prefix: ["tt" ++ d] gives [imdb_id] with the whole
    [t]; ["imdb/tt" ++ d] gives [imdb_id] with [t] less its first 5
    characters, i.e. ["tt" ++ d]; ["tmdb/" ++ d] gives [tmdb_id] with [d];
    ["tvdb/" ++ d] gives [tvdb_id] with [d]; anything else gives [None].
    The digit test on [d] is Python's [str.isdigit]: [d] is non-empty and
    every code point of it is a Unicode digit, not only ['0'..'9']. *)
Theorem parse_media_id_classify : forall R title d,
  let t := str_lower R title in
  (str_isdigit R d = true <-> d <> [] /\ Forall (fun c => char_isdigit R c = true) d) /\
  (t = u "tt" ++ d -> str_isdigit R d = true ->
   parse_media_id R title = Some {| mq_type := u "imdb_id"; mq_title := t |}) /\
  (t = u "imdb/tt" ++ d -> str_isdigit R d = true ->
   parse_media_id R title = Some {| mq_type := u "imdb_id"; mq_title := skipn 5 t |} /\
   skipn 5 t = u "tt" ++ d) /\
  (t = u "tmdb/" ++ d -> str_isdigit R d = true ->
   parse_media_id R title = Some {| mq_type := u "tmdb_id"; mq_title := d |}) /\
  (t = u "tvdb/" ++ d -> str_isdigit R d = true ->
   parse_media_id R title = Some {| mq_type := u "tvdb_id"; mq_title := d |}) /\
  ((forall p d', In p [u "tt"; u "imdb/tt"; u "tmdb/"; u "tvdb/"] ->
                 t = p ++ d' -> str_isdigit R d' = false) ->
   parse_media_id R title = None).
Proof.
  intros R title d t.
  split; [apply str_isdigit_spec|].
  unfold parse_media_id. fold t.
  split; [intros E Hd; rewrite E; simpl; rewrite Hd; reflexivity|].
  split; [intros E Hd; rewrite E; simpl; rewrite Hd; split; reflexivity|].
  split; [intros E Hd; rewrite E; simpl; rewrite Hd; reflexivity|].
  split; [intros E Hd; rewrite E; simpl; rewrite Hd; reflexivity|].
  intros Hno.
  assert (Hp : forall p, In p [u "tt"; u "imdb/tt"; u "tmdb/"; u "tvdb/"] ->
                 is_prefix p t && str_isdigit R (skipn (length p) t) = false).
  { intros p Hin. destruct (is_prefix p t) eqn:E; [|reflexivity]. simpl.
    apply (Hno p); [exact Hin | apply is_prefix_split, E]. }
  assert (H1 : is_prefix (u "tt") t && str_isdigit R (skipn 2 t) = false)
    by exact (Hp (u "tt") ltac:(simpl; tauto)).
  assert (H2 : is_prefix (u "imdb/tt") t && str_isdigit R (skipn 7 t) = false)
    by exact (Hp (u "imdb/tt") ltac:(simpl; tauto)).
  assert (H3 : is_prefix (u "tmdb/") t && str_isdigit R (skipn 5 t) = false)
    by exact (Hp (u "tmdb/") ltac:(simpl; tauto)).
  assert (H4 : is_prefix (u "tvdb/") t && str_isdigit R (skipn 5 t) = false)
    by exact (Hp (u "tvdb/") ltac:(simpl; tauto)).
  rewrite H1, H2, H3, H4. reflexivity.
Qed.

(** ** [add_episode_info] *)

Lemma replace_fuel_one_empty : forall c s,
  replace_fuel (length s) [c] [] s = filter (fun x => negb (N.eqb x c)) s.
Proof.
  intros c s. induction s as [|x s IH]; [reflexivity|].
  simpl. rewrite andb_true_r, N.eqb_sym.
  destruct (N.eqb x c); simpl; rewrite IH; reflexivity.
Qed.

(** [s.replace('-', '')] removes every dash. *)
Lemma replace_dash : forall s, py_replace s (u "-") [] = filter (fun c => negb (N.eqb c 45)) s.
Proof. intros s. apply replace_fuel_one_empty. Qed.

Ltac ep_cbn := cbn -[dict_get_default dict_get u py_str int_of_str dotted_title firstn py_replace _clean_plot].

(** C10: when the episode record has a non-empty [dateEvent] (and the
    season and episode numbers parse, so that the function gets that far),
    [dateEvent] is set as first-aired; with [full_info = False] the title
    registered is ['{strLeague}.{dateEvent without dashes}.{title}'],
    where the base title is [strEvent], or ['Episode ' + strEpisode] when
    [strEvent] is absent, and the function returns there; with
    [full_info = True] the base title itself is registered twice in a row,
    and no other title follows. *)
Theorem add_episode_info_title : forall R li full st ad ss es sn en,
  dict_get_default (rec st) (u "strSeason") (PStr (u "0000")) = PStr ss ->
  int_of_str R (firstn 4 ss) = Some sn ->
  dict_get_default (rec st) (u "strEpisode") (PStr (u "0")) = PStr es ->
  int_of_str R es = Some en ->
  dict_get (rec st) (u "dateEvent") = Some (PStr ad) -> ad <> [] ->
  let base := dict_get_default (rec st) (u "strEvent") (PStr (u "Episode " ++ es)) in
  (full = false ->
   add_episode_info R li full st =
   (Ok li, mkSt (trace st ++
                 [SetSeason sn; SetEpisode en; SetMediaType (u "episode");
                  SetFirstAired (PStr ad);
                  SetTitle (PStr (py_str R (dict_get_default (rec st) (u "strLeague") (PStr []))
                                  ++ u "." ++ filter (fun c => negb (N.eqb c 45)) ad
                                  ++ u "." ++ py_str R base))])
                (rec st))) /\
  (full = true ->
   exists rest,
     trace (snd (add_episode_info R li full st)) =
     trace st ++ [SetSeason sn; SetEpisode en; SetMediaType (u "episode");
                  SetFirstAired (PStr ad); SetTitle base; SetTitle base] ++ rest /\
     Forall (fun ev => forall v, ev <> SetTitle v) rest).
Proof.
  intros R li full [tr d] ad ss es sn en Hs Hsn He Hen Hd Had base. cbn [rec trace] in *.
  assert (Hd' : dict_get_default d (u "dateEvent") PNone = PStr ad)
    by (unfold dict_get_default; rewrite Hd; reflexivity).
  destruct ad as [|c ad]; [congruence|].
  split; intros Hf; subst full; unfold add_episode_info; ep_cbn;
    rewrite Hs, He, Hd'; ep_cbn; rewrite Hsn, Hen; ep_cbn.
  - unfold dotted_title. rewrite replace_dash.
    repeat rewrite <- app_assoc. reflexivity.
  - unfold ret, bind.
    set (plot := dict_get_default d (u "strDescriptionEN") PNone).
    set (thumb := dict_get_default d (u "strThumb") (PStr [])).
    destruct (truthy plot);
      [destruct (clean_plot_v (dict_get_default d (u "strDescriptionEN") (PStr [])))|];
      destruct (truthy thumb); try destruct (replace_v thumb SLASH_ESC SLASH);
      cbn; eexists; (split; [repeat rewrite <- app_assoc; reflexivity|]);
      repeat constructor; discriminate.
Qed.

Lemma field_str : forall d, Forall (fun kv => exists s, snd kv = PStr s) d ->
  forall k, (exists s, dict_get d k = Some (PStr s)) \/ dict_get d k = None.
Proof.
  intros d Hd k. induction Hd as [|[k' v] d [s Hs] _ IH]; simpl; [right; reflexivity|].
  simpl in Hs. subst v. destruct (str_eqb k k'); [left; exists s; reflexivity | exact IH].
Qed.

Ltac case_field Hall k :=
  let s := fresh "s" in let E := fresh "E" in
  destruct (field_str _ Hall k) as [[s E] | E]; try rewrite E.

(** C4: for an episode record whose fields are strings, and
    either value of [full_info], [add_episode_info] returns the list item
    without error exactly when [int()] accepts both the first 4 characters
    of [strSeason] (default ["0000"]) and [strEpisode] (default ["0"]);
    otherwise it raises [ValueError].  Absent fields are defaulted, but a
    present non-numeric [strSeason] or [strEpisode] is not. *)
Theorem add_episode_info_no_error_iff : forall R li full st,
  Forall (fun kv => exists s, snd kv = PStr s) (rec st) ->
  fst (add_episode_info R li full st) =
  match int_of_str R (firstn 4 (str_field (rec st) (u "strSeason") (u "0000"))),
        int_of_str R (str_field (rec st) (u "strEpisode") (u "0")) with
  | Some _, Some _ => Ok li
  | _, _ => Exc ValueError
  end.
Proof.
  intros R li full [tr d] Hall. cbn [rec trace] in *.
  unfold add_episode_info, str_field. ep_cbn. unfold dict_get_default.
  case_field Hall (u "strSeason"); case_field Hall (u "strEpisode"); ep_cbn;
  repeat match goal with |- context [int_of_str ?R ?x] => destruct (int_of_str R x) end;
  ep_cbn; try reflexivity;
  case_field Hall (u "dateEvent"); case_field Hall (u "strDescriptionEN");
  case_field Hall (u "strThumb"); destruct full;
  repeat match goal with |- context [truthy (PStr ?s)] => is_var s; destruct s end;
  ep_cbn; reflexivity.
Qed.

(** ** Monad equations *)

Lemma bind_get_rec {B} (k : pydict -> M B) st : bind get_rec k st = k (rec st) st.
Proof. reflexivity. Qed.

Lemma bind_lift_ok {A B} (a : A) (k : A -> M B) st : bind (lift (Ok a)) k st = k a st.
Proof. reflexivity. Qed.

Lemma bind_lift_exc {A B} e (k : A -> M B) st : bind (lift (Exc e)) k st = (Exc e, st).
Proof. reflexivity. Qed.

Lemma bind_emit {B} ev (k : unit -> M B) st :
  bind (emit ev) k st = k tt (mkSt (trace st ++ [ev]) (rec st)).
Proof. reflexivity. Qed.

Lemma set_key_trace_ext k v : preserves trace_ext (set_key k v).
Proof. intros st. exists []. simpl. rewrite app_nil_r. reflexivity. Qed.

(** ** [add_main_show_info]: the year *)

(** C5: once the fields read before it are usable ([idLeague] present,
    [strDescriptionEN] absent or a [str]) and [intFormedYear] is absent or
    a [str], [add_main_show_info] raises [ValueError] right after the
    episode guide, before any year is set, exactly when [int()] rejects the
    first 4 characters of [intFormedYear] (the empty string when it is
    absent, which [int()] always rejects); otherwise it sets the year to the
    parsed integer. *)
Theorem add_main_show_info_year : forall R load li full st,
  dict_get (rec st) (u "idLeague") <> None ->
  (forall v, dict_get (rec st) (u "strDescriptionEN") = Some v -> exists s, v = PStr s) ->
  (forall v, dict_get (rec st) (u "intFormedYear") = Some v -> exists s, v = PStr s) ->
  let y := firstn 4 (str_field (rec st) (u "intFormedYear") []) in
  let showname := dict_get_default (rec st) (u "strLeague") PNone in
  let plot := _clean_plot (str_field (rec st) (u "strDescriptionEN") []) in
  let head := [SetTitle showname; SetOriginalTitle showname; SetTvShowTitle showname;
               SetPlot plot; SetPlotOutline plot; SetMediaType (u "tvshow");
               SetEpisodeGuide (py_str R (dict_get_default (rec st) (u "idLeague") PNone))] in
  (dict_get (rec st) (u "intFormedYear") = None -> int_of_str R y = None) /\
  (int_of_str R y = None ->
   add_main_show_info R load li full st = (Exc ValueError, mkSt (trace st ++ head) (rec st))) /\
  (forall n, int_of_str R y = Some n ->
   exists rest, trace (snd (add_main_show_info R load li full st)) =
                trace st ++ head ++ [SetYear n] ++ rest).
Proof.
  intros R load li full [tr d] Hid Hdesc Hyear y showname plot head.
  cbn [rec trace] in *.
  assert (Hpl : clean_plot_v (dict_get_default d (u "strDescriptionEN") (PStr [])) = Ok plot).
  { unfold plot, str_field, dict_get_default.
    destruct (dict_get d (u "strDescriptionEN")) as [v|] eqn:E; [|reflexivity].
    destruct (Hdesc v eq_refl) as [s ->]. reflexivity. }
  assert (Hgi : getitem d (u "idLeague") = Ok (dict_get_default d (u "idLeague") PNone)).
  { unfold getitem, dict_get_default. destruct (dict_get d (u "idLeague")); [reflexivity | congruence]. }
  assert (Hy4 : slice_to 4 (dict_get_default d (u "intFormedYear") (PStr [])) = Ok (PStr y)).
  { unfold y, str_field, dict_get_default.
    destruct (dict_get d (u "intFormedYear")) as [v|] eqn:E; [|reflexivity].
    destruct (Hyear v eq_refl) as [s ->]. reflexivity. }
  assert (Hpi : py_int R (PStr y) = match int_of_str R y with
                                    | Some z => Ok z | None => Exc ValueError end)
    by reflexivity.
  split.
  { intros E. unfold y, str_field. rewrite E. reflexivity. }
  unfold add_main_show_info. rewrite bind_get_rec. cbn [rec].
  fold showname. rewrite Hpl, bind_lift_ok.
  repeat rewrite bind_emit. rewrite Hgi, bind_lift_ok, bind_emit.
  rewrite Hy4, bind_lift_ok, Hpi. cbn [trace rec].
  split.
  - intros En. rewrite En, bind_lift_exc.
    unfold head. repeat rewrite <- app_assoc. reflexivity.
  - intros n En. rewrite En, bind_lift_ok, bind_emit. cbv beta.
    match goal with
    | |- exists rest, trace (snd (?m ?st)) = _ =>
        assert (Hm : preserves trace_ext m);
        [ | destruct (Hm st) as [l Hl]; exists l; rewrite Hl; cbn [trace];
            unfold head; repeat rewrite <- app_assoc; reflexivity ]
    end.
    assert (HE : forall ev, is_io ev = false -> preserves trace_ext (emit ev))
      by (intros ev _; apply emit_trace_ext).
    pres_tac HE;
      try apply emit_trace_ext;
      try apply set_key_trace_ext;
      try (apply set_show_artwork_pres; auto with typeclass_instances);
      try (apply add_season_info_pres; auto with typeclass_instances; intros; apply emit_trace_ext).
Qed.

(** ** [set_show_artwork] *)

Lemma image_loop_fanart : forall fl v rest st, url_ok v ->
  image_loop fl ((u "fanart", v) :: rest) st = image_loop (fl ++ fanart_of v) rest st.
Proof.
  intros fl v rest st Hv.
  destruct v as [| b | z | [|c s] | l | dd]; cbn -[py_replace] in Hv |- *;
    try rewrite Hv; try rewrite app_nil_r; reflexivity.
Qed.

Lemma image_loop_other : forall fl t v rest st,
  str_eqb t (u "fanart") = false -> url_ok v ->
  image_loop fl ((t, v) :: rest) st =
  image_loop fl rest (mkSt (trace st ++ art_of t v) (rec st)).
Proof.
  intros fl t v rest [tr d] Ht Hv. cbn [image_loop]. rewrite Ht.
  destruct v as [| b | z | [|c s] | l | dd]; cbn -[py_replace] in Hv |- *;
    try rewrite Hv; try rewrite app_nil_r; reflexivity.
Qed.

(** C6: when the image fields are strings or falsy, [set_show_artwork]
    registers the poster, then the banner, each when present, with its URL
    normalised by [.replace('\/', '/')] and a preview URL that appends
    ['/preview']; it then registers in one call the list of the normalised
    [strFanart1], [strFanart2], [strFanart3], [strFanart1] that are present,
    in that order and without removing duplicates.  So a show with only
    [strFanart1] gets that URL twice, and the fanart list has one entry per
    present field of the four, equal URLs included. *)
Theorem set_show_artwork_spec : forall li st,
  let get k := dict_get_default (rec st) k PNone in
  (forall k, In k [u "strFanart1"; u "strFanart2"; u "strFanart3"; u "strPoster"; u "strBanner"] ->
             url_ok (get k)) ->
  let fl := fanart_of (get (u "strFanart1")) ++ fanart_of (get (u "strFanart2")) ++
            fanart_of (get (u "strFanart3")) ++ fanart_of (get (u "strFanart1")) in
  set_show_artwork li st =
  (Ok li, mkSt (trace st ++ art_of (u "poster") (get (u "strPoster"))
                         ++ art_of (u "banner") (get (u "strBanner"))
                         ++ match fl with [] => [] | _ => [SetAvailableFanart fl] end)
               (rec st)) /\
  length fl = length (filter (fun k => truthy (get k))
                             [u "strFanart1"; u "strFanart2"; u "strFanart3"; u "strFanart1"]) /\
  (forall s, get (u "strFanart1") = PStr s -> s <> [] ->
   get (u "strFanart2") = PNone -> get (u "strFanart3") = PNone ->
   fl = [norm_url s; norm_url s]).
Proof.
  intros li [tr d] get Hok fl. cbn [rec trace] in *.
  assert (H1 := Hok (u "strFanart1") ltac:(simpl; tauto)).
  assert (H2 := Hok (u "strFanart2") ltac:(simpl; tauto)).
  assert (H3 := Hok (u "strFanart3") ltac:(simpl; tauto)).
  assert (H4 := Hok (u "strPoster") ltac:(simpl; tauto)).
  assert (H5 := Hok (u "strBanner") ltac:(simpl; tauto)).
  split; [|split].
  - unfold set_show_artwork. rewrite bind_get_rec. cbn [rec].
    unfold bind at 1. unfold artwork_images.
    rewrite (image_loop_fanart _ _ _ _ H1), (image_loop_fanart _ _ _ _ H2),
            (image_loop_fanart _ _ _ _ H3), (image_loop_fanart _ _ _ _ H1).
    rewrite (image_loop_other _ (u "poster") _ _ _ eq_refl H4), (image_loop_other _ (u "banner") _ _ _ eq_refl H5).
    cbn [image_loop ret app rec trace fst snd]. unfold fl.
    rewrite <- !app_assoc.
    destruct (fanart_of (get (u "strFanart1")) ++ fanart_of (get (u "strFanart2")) ++
              fanart_of (get (u "strFanart3")) ++ fanart_of (get (u "strFanart1")))
      as [|x y]; cbn; unfold ret; rewrite ?app_nil_r, <- ?app_assoc; reflexivity.
  - unfold fl. rewrite !length_app. cbn [filter].
    assert (Hf : forall v, url_ok v -> length (fanart_of v) = if truthy v then 1 else 0).
    { intros v Hv. destruct v as [| b | z | [|c s] | l | dd]; simpl in Hv |- *;
        try rewrite Hv; reflexivity. }
    rewrite (Hf _ H1), (Hf _ H2), (Hf _ H3).
    destruct (truthy (get (u "strFanart1"))), (truthy (get (u "strFanart2"))),
             (truthy (get (u "strFanart3"))); reflexivity.
  - intros s E1 Hs E2 E3. unfold fl. rewrite E1, E2, E3.
    destruct s as [|c s]; [congruence|]. reflexivity.
Qed.

(** ** Instances on concrete records *)

(** C7 on the sample league record: [add_main_show_info] with
    [full_info = False] leaves the record as it is. *)
Lemma mapping_functions_frame_witness :
  rec (snd (add_main_show_info R0 (fun _ => PNone) li0 false (mkSt [] league0))) = league0 /\
  dict_get (rec (snd (add_main_show_info R0 (fun _ => PNone) li0 true (mkSt [] league0))))
           (u "idLeague") = Some (PStr (u "4328")).
Proof.
  split.
  - exact (proj1 (proj2 (proj2 (proj2 (proj2 (proj2
             (mapping_functions_frame R0 (fun _ => PNone) li0 false (mkSt [] league0)))))))).
  - exact (proj2 (proj2 (proj2 (proj2 (proj2 (proj2 (proj2
             (mapping_functions_frame R0 (fun _ => PNone) li0 false (mkSt [] league0))))))))
             (u "idLeague") eq_refl).
Defined.

(** C2 on a failed fetch: only the fetch is recorded and [None] is returned. *)
Lemma add_season_info_none_noop_witness :
  _add_season_info R0 (fun _ => PNone) (mkSt [] league0) =
  (Ok PNone, mkSt [LoadInfo (season_params league0)] league0).
Proof.
  exact (proj1 (add_season_info_none_noop R0 (fun _ => PNone) (mkSt [] league0)) eq_refl).
Defined.

(** C2: an empty dict as the response raises [TypeError]. *)
Lemma add_season_info_empty_response :
  fst (_add_season_info R0 (fun _ => PDict []) (mkSt [] league0)) = Exc TypeError.
Proof. vm_compute. reflexivity. Qed.

(** C3 on ["TT0944947"]: an IMDB id, lower-cased. *)
Lemma parse_media_id_classify_witness :
  parse_media_id R0 (u "TT0944947") =
  Some {| mq_type := u "imdb_id"; mq_title := u "tt0944947" |}.
Proof.
  exact (proj1 (proj2 (parse_media_id_classify R0 (u "TT0944947") (u "0944947")))
           eq_refl eq_refl).
Defined.

(** C3: ["tt"] followed by an ARABIC-INDIC DIGIT ONE (U+0661), which is not
    an ASCII digit, is taken as an IMDB id. *)
Lemma parse_media_id_unicode_digit :
  ~ In 1633%N (u "0123456789") /\
  parse_media_id R0 [116; 116; 1633]%N =
  Some {| mq_type := u "imdb_id"; mq_title := [116; 116; 1633]%N |}.
Proof. split; [vm_compute; intuition discriminate | vm_compute; reflexivity]. Qed.

(** C4 on the sample event record: no error. *)
Lemma add_episode_info_no_error_iff_witness :
  fst (add_episode_info R0 li0 true (mkSt [] event0)) = Ok li0.
Proof.
  refine (eq_trans (add_episode_info_no_error_iff R0 li0 true (mkSt [] event0) _) eq_refl).
  repeat constructor; eexists; reflexivity.
Defined.

(** C4: a present, non-numeric [strSeason] raises [ValueError]. *)
Lemma add_episode_info_bad_season :
  fst (add_episode_info R0 li0 true (mkSt [] event_badseason)) = Exc ValueError.
Proof. vm_compute. reflexivity. Qed.

(** C10 on the sample event record with [full_info = False]. *)
Lemma add_episode_info_title_witness :
  add_episode_info R0 li0 false (mkSt [] event0) =
  (Ok li0, mkSt [SetSeason 2023; SetEpisode 5; SetMediaType (u "episode");
                 SetFirstAired (PStr (u "2023-08-11"));
                 SetTitle (PStr (u "EPL.20230811.Arsenal vs Chelsea"))] event0).
Proof.
  exact (proj1 (add_episode_info_title R0 li0 false (mkSt [] event0) (u "2023-08-11")
                  (u "2023-2024") (u "5") 2023%Z 5%Z
                  eq_refl eq_refl eq_refl eq_refl eq_refl ltac:(discriminate)) eq_refl).
Defined.

(** C5 on the sample league records: the year 1992 is set, and a record
    without [intFormedYear] raises [ValueError]. *)
Lemma add_main_show_info_year_witness :
  (exists rest, trace (snd (add_main_show_info R0 (fun _ => PNone) li0 true (mkSt [] league0))) =
     [SetTitle (PStr (u "English Premier League"));
      SetOriginalTitle (PStr (u "English Premier League"));
      SetTvShowTitle (PStr (u "English Premier League"));
      SetPlot (u "The [B]top[/B] league."); SetPlotOutline (u "The [B]top[/B] league.");
      SetMediaType (u "tvshow"); SetEpisodeGuide (u "4328"); SetYear 1992] ++ rest) /\
  fst (add_main_show_info R0 (fun _ => PNone) li0 true (mkSt [] league_noyear)) = Exc ValueError.
Proof.
  split.
  - exact (proj2 (proj2 (add_main_show_info_year R0 (fun _ => PNone) li0 true (mkSt [] league0)
             ltac:(discriminate)
             ltac:(intros v Hv; injection Hv as <-; eexists; reflexivity)
             ltac:(intros v Hv; injection Hv as <-; eexists; reflexivity)))
             1992%Z eq_refl).
  - pose proof (add_main_show_info_year R0 (fun _ => PNone) li0 true (mkSt [] league_noyear)
                  ltac:(discriminate) ltac:(discriminate) ltac:(discriminate)) as [H1 [H2 _]].
    rewrite (H2 (H1 eq_refl)). reflexivity.
Defined.

(** C6 on the sample league record: the poster with its preview, then the
    first fanart twice. *)
Lemma set_show_artwork_spec_witness :
  set_show_artwork li0 (mkSt [] league0) =
  (Ok li0, mkSt [AddAvailableArtwork (u "https://x/p.jpg") (u "poster") (u "https://x/p.jpg/preview");
                 SetAvailableFanart [u "https://x/f.jpg"; u "https://x/f.jpg"]] league0).
Proof.
  refine (eq_trans (proj1 (set_show_artwork_spec li0 (mkSt [] league0) _)) _).
  - intros k Hk. simpl in Hk.
    repeat destruct Hk as [<- | Hk]; try contradiction; vm_compute; trivial.
  - vm_compute. reflexivity.
Defined.

(* ================================================================== *)
(** * Further properties of the code *)

(** ** [_clean_plot] on text it has already cleaned *)

Lemma lt_ok_tail : forall c o, lt_ok (c :: o) -> lt_ok o.
Proof. intros c o H a b E. apply (H (c :: a) b). rewrite E. reflexivity. Qed.

Lemma tag_sub_go_id : forall n o, length o <= n -> lt_ok o -> tag_sub_go None o = o.
Proof.
  induction n as [|n IH]; intros o Hl Ho.
  - destruct o; [reflexivity | simpl in Hl; lia].
  - destruct o as [|c o]; [reflexivity|]. simpl in Hl. cbn [tag_sub_go].
    destruct (N.eqb c 60) eqn:Ec.
    + apply N.eqb_eq in Ec. subst c.
      destruct (Ho [] o eq_refl) as [[b' ->] | Hno].
      * cbn [tag_sub_go N.eqb Pos.eqb]. rewrite IH; [reflexivity | simpl in Hl; lia |].
        apply (lt_ok_tail 62), (lt_ok_tail 60), Ho.
      * rewrite tag_sub_go_no_gt by exact Hno. reflexivity.
    + rewrite IH; [reflexivity | lia | apply (lt_ok_tail c), Ho].
Qed.

Lemma str_contains_split : forall p s,
  str_contains p s = true -> exists a b, s = a ++ p ++ b.
Proof.
  intros p s. induction s as [|c s IH]; intros H; cbn [str_contains] in H;
    apply orb_true_iff in H; destruct H as [H|H].
  - exists [], (skipn (length p) []). exact (is_prefix_split p [] H).
  - discriminate.
  - exists [], (skipn (length p) (c :: s)). exact (is_prefix_split p (c :: s) H).
  - destruct (IH H) as [a [b ->]]. exists (c :: a), b. reflexivity.
Qed.

Lemma replace_fuel_none : forall n old new s,
  str_contains old s = false -> replace_fuel n old new s = s.
Proof.
  induction n as [|n IH]; intros old new s H; [reflexivity|].
  destruct s as [|c s]; [reflexivity|].
  cbn [str_contains] in H. apply orb_false_iff in H as [H1 H2].
  cbn [replace_fuel]. rewrite H1, IH by exact H2. reflexivity.
Qed.

Lemma py_replace_none : forall s old new,
  old <> [] -> str_contains old s = false -> py_replace s old new = s.
Proof.
  intros s [|c old] new Hne H; [congruence|]. apply replace_fuel_none, H.
Qed.

(** A pattern that opens with ['<'] and a character other than ['>'] and
    has a ['>'] later does not occur in a text where every ['<'] is
    followed by ['>'] or by no ['>'] at all. *)
Lemma lt_ok_no_pat : forall o c p,
  lt_ok o -> c <> 62%N -> In 62%N p -> str_contains (60%N :: c :: p) o = false.
Proof.
  intros o c p Ho Hc Hp. destruct (str_contains _ o) eqn:E; [exfalso|reflexivity].
  destruct (str_contains_split _ _ E) as [a [b Eo]]. simpl in Eo.
  destruct (Ho a (c :: p ++ b) Eo) as [[b' Eb] | Hno].
  - injection Eb as Ec _. congruence.
  - apply Hno. right. apply in_or_app. left. exact Hp.
Qed.

Lemma clean_plot_fixed : forall p, lt_ok p -> _clean_plot p = p.
Proof.
  intros p Hp. unfold _clean_plot. cbn [fold_left CLEAN_PLOT_REPLACEMENTS fst snd].
  rewrite (py_replace_none p (u "<b>")) by
    (discriminate || exact (lt_ok_no_pat p 98 [62%N] Hp ltac:(discriminate) ltac:(simpl; tauto))).
  rewrite (py_replace_none p (u "</b>")) by
    (discriminate || exact (lt_ok_no_pat p 47 [98; 62]%N Hp ltac:(discriminate) ltac:(simpl; tauto))).
  rewrite (py_replace_none p (u "<i>")) by
    (discriminate || exact (lt_ok_no_pat p 105 [62%N] Hp ltac:(discriminate) ltac:(simpl; tauto))).
  rewrite (py_replace_none p (u "</i>")) by
    (discriminate || exact (lt_ok_no_pat p 47 [105; 62]%N Hp ltac:(discriminate) ltac:(simpl; tauto))).
  rewrite (py_replace_none p (u "</p><p>")) by
    (discriminate || exact (lt_ok_no_pat p 47 [112; 62; 60; 112; 62]%N Hp ltac:(discriminate) ltac:(simpl; tauto))).
  exact (tag_sub_go_id (length p) p (le_n _) Hp).
Qed.

Lemma clean_plot_lt_ok : forall p, lt_ok (_clean_plot p).
Proof. intros p. apply (tag_sub_go_lt_ok (length _) _ (le_n _)). Qed.

(** X1: [_clean_plot] returns its input unchanged exactly when every ['<']
    of the input is immediately followed by ['>'] or has no ['>'] anywhere
    after it; in particular a text without ['<'] is left as it is. *)
Theorem clean_plot_unchanged_iff : forall p, _clean_plot p = p <-> lt_ok p.
Proof.
  intros p. split.
  - intros H. rewrite <- H. apply clean_plot_lt_ok.
  - apply clean_plot_fixed.
Qed.

(** X2: [_clean_plot] is idempotent: cleaning a cleaned plot changes
    nothing. *)
Theorem clean_plot_idempotent : forall p, _clean_plot (_clean_plot p) = _clean_plot p.
Proof. intros p. apply clean_plot_fixed, clean_plot_lt_ok. Qed.

(** ** Inversion of the exception and state monads *)

Lemma rbind_ok_inv : forall {A B} (r : res A) (k : A -> res B) b,
  rbind r k = Ok b -> exists a, r = Ok a /\ k a = Ok b.
Proof. intros A B [a|e] k b H; [exists a; split; [reflexivity | exact H] | discriminate]. Qed.

Lemma bind_ok_inv : forall {A B} (m : M A) (k : A -> M B) st b st',
  bind m k st = (Ok b, st') -> exists a st1, m st = (Ok a, st1) /\ k a st1 = (Ok b, st').
Proof.
  intros A B m k st b st' H. unfold bind in H.
  destruct (m st) as [[a|e] st1]; [exists a, st1; split; [reflexivity | exact H] | discriminate].
Qed.

Lemma lift_ok_inv : forall {A} (r : res A) st a st',
  lift r st = (Ok a, st') -> r = Ok a /\ st' = st.
Proof.
  intros A [x|e] st a st' H; cbn in H; [injection H as -> ->; split; reflexivity | discriminate].
Qed.

Lemma get_getitem : forall it k n n',
  py_get it k PNone = Ok n -> py_getitem it k = Ok n' -> n' = n.
Proof.
  intros [| | | | | d] k n n' H1 H2; try discriminate.
  cbn in H1, H2. unfold getitem in H2. unfold dict_get_default in H1.
  destruct (dict_get d k); congruence.
Qed.

Lemma py_in_app_l : forall x l l', py_in x l = true -> py_in x (l ++ l') = true.
Proof. intros x l l' H. unfold py_in in *. rewrite existsb_app, H. reflexivity. Qed.

Lemma py_in_app_single : forall x l, py_eqb x x = true -> py_in x (l ++ [x]) = true.
Proof.
  intros x l H. unfold py_in. rewrite existsb_app. cbn. rewrite H. apply orb_true_r.
Qed.

Lemma py_eqb_str : forall s, py_eqb (PStr s) (PStr s) = true.
Proof. intros s. apply str_eqb_refl. Qed.

Ltac rinv H x E := apply rbind_ok_inv in H; destruct H as [x [E H]]; cbv beta in H.

(** ** [_get_credits] *)


Lemma writers_loop_fresh : forall R items acc l,
  writers_loop R acc items = Ok l -> exists w, l = acc ++ w /\ fresh acc w.
Proof.
  intros R. induction items as [|it items IH]; intros acc l H; cbn [writers_loop] in H.
  - injection H as <-. exists []. rewrite app_nil_r. split; [reflexivity | exact I].
  - rinv H job Ejob. rinv H jl Ejl. rinv H isW EisW.
    destruct isW; [|exact (IH _ _ H)].
    rinv H name Ename. destruct (negb (py_in name acc)) eqn:Ein; [|exact (IH _ _ H)].
    rinv H name' Ename'. rewrite (get_getitem _ _ _ _ Ename Ename') in H.
    destruct (IH _ _ H) as [w [-> Hw]]. exists (name :: w).
    rewrite <- app_assoc. split; [reflexivity|]. split; [|exact Hw].
    apply negb_true_iff, Ein.
Qed.

Lemma writers_loop_mono : forall R items acc l x,
  writers_loop R acc items = Ok l -> py_in x acc = true -> py_in x l = true.
Proof.
  intros R items acc l x H Hx. destruct (writers_loop_fresh R items acc l H) as [w [-> _]].
  apply py_in_app_l, Hx.
Qed.

Lemma writers_loop_covers : forall R items acc l,
  writers_loop R acc items = Ok l ->
  forall d s, In (PDict d) items ->
  dict_get d (u "name") = Some (PStr s) ->
  ((exists j, dict_get_default d (u "job") (PStr []) = PStr j /\ str_lower R j = u "writer") \/
   (exists dp, dict_get_default d (u "department") (PStr []) = PStr dp /\
               str_lower R dp = u "writing")) ->
  py_in (PStr s) l = true.
Proof.
  intros R. induction items as [|it items IH]; intros acc l H d s Hin Hname Hw;
    [destruct Hin|]. cbn [writers_loop] in H.
  rinv H job Ejob. rinv H jl Ejl. rinv H isW EisW.
  destruct Hin as [-> | Hin]; [|destruct isW; [rinv H name Ename; destruct (negb (py_in name acc));
                                [rinv H name' Ename'|] |]; eapply IH; eassumption].
  (* the item at hand is a writer *)
  assert (HisW : isW = true).
  { unfold py_get in Ejob. injection Ejob as <-.
    destruct Hw as [[j [Ej Hj]] | [dp [Edp Hdp]]].
    - rewrite Ej in Ejl. cbn in Ejl. injection Ejl as <-. rewrite Hj in EisW.
      cbn in EisW. injection EisW as <-. reflexivity.
    - destruct (str_eqb jl (u "writer")); [injection EisW as <-; reflexivity|].
      rinv EisW dep Edep. rinv EisW dl Edl. unfold py_get in Edep. injection Edep as <-.
      rewrite Edp in Edl. cbn in Edl. injection Edl as <-. rewrite Hdp in EisW.
      injection EisW as <-. reflexivity. }
  subst isW. rinv H name Ename.
  assert (Hn : name = PStr s).
  { unfold py_get, dict_get_default in Ename. rewrite Hname in Ename. congruence. }
  subst name. destruct (negb (py_in (PStr s) acc)) eqn:Ein.
  - rinv H name' Ename'. rewrite (get_getitem _ _ _ _ Ename Ename') in H.
    apply (writers_loop_mono R items _ l _ H), py_in_app_single, py_eqb_str.
  - apply (writers_loop_mono R items acc l _ H). apply negb_false_iff, Ein.
Qed.


(** X4: when [_get_credits] returns, every crew member with a [str] name
    whose [job] lower-cases to ['writer'] or whose [department] lower-cases
    to ['writing'] has its name in the result. *)
Theorem get_credits_has_writers : forall R info l,
  _get_credits R info = Ok l ->
  exists crew,
    rbind (py_get (dict_get_default info (u "credits") (PDict [])) (u "crew") (PList []))
          py_iter = Ok crew /\
    forall d s, In (PDict d) crew ->
    dict_get d (u "name") = Some (PStr s) ->
    ((exists j, dict_get_default d (u "job") (PStr []) = PStr j /\ str_lower R j = u "writer") \/
     (exists dp, dict_get_default d (u "department") (PStr []) = PStr dp /\
                 str_lower R dp = u "writing")) ->
    py_in (PStr s) l = true.
Proof.
  intros R info l H. unfold _get_credits in H.
  rinv H items Eitems. rinv H credits Ecr. rinv H crew_v Ecv. rinv H crew Ecrew.
  exists crew. split; [rewrite Ecv; exact Ecrew|].
  intros d s Hin Hname Hw. exact (writers_loop_covers R crew credits l H d s Hin Hname Hw).
Qed.

(** ** [_get_directors] *)

Lemma directors_loop_spec : forall ds acc,
  directors_loop acc (map PDict ds) =
  if forallb (fun d => negb (is_director d) ||
                       match dict_get d (u "name") with Some _ => true | None => false end) ds
  then Ok (acc ++ flat_map (fun d => if is_director d
                                     then match dict_get d (u "name") with
                                          | Some n => [n] | None => [] end
                                     else []) ds)
  else Exc KeyError.
Proof.
  induction ds as [|d ds IH]; intros acc.
  - cbn. rewrite app_nil_r. reflexivity.
  - cbn [map directors_loop rbind py_get py_getitem getitem forallb flat_map].
    change (py_eqb (dict_get_default d (u "job") PNone) (PStr (u "Director")))
      with (is_director d).
    destruct (is_director d); cbn [negb orb andb].
    + unfold getitem. destruct (dict_get d (u "name")) as [n|]; cbn [rbind andb]; [|reflexivity].
      rewrite IH. rewrite <- app_assoc. reflexivity.
    + rewrite IH. reflexivity.
Qed.

(** X5: when the crew of [episode_info['credits']] is a list of dicts
    (both keys may be absent), [_get_directors] returns, in crew order,
    the names of the members whose [job] is exactly ['Director'] (the test
    is case-sensitive), and raises [KeyError] when one of these members has
    no [name]. *)
Theorem get_directors_spec : forall info ds,
  py_get (dict_get_default info (u "credits") (PDict [])) (u "crew") (PList []) =
    Ok (PList (map PDict ds)) ->
  _get_directors info =
  if forallb (fun d => negb (is_director d) ||
                       match dict_get d (u "name") with Some _ => true | None => false end) ds
  then Ok (flat_map (fun d => if is_director d
                              then match dict_get d (u "name") with
                                   | Some n => [n] | None => [] end
                              else []) ds)
  else Exc KeyError.
Proof.
  intros info ds H. unfold _get_directors. rewrite H. cbn [rbind py_iter].
  apply directors_loop_spec.
Qed.

(** ** [_set_cast] *)

Lemma cast_loop_ok : forall sg root items acc l,
  cast_loop sg root acc items = Ok l ->
  exists c, l = acc ++ c /\ Forall2 (actor_of sg root) items c.
Proof.
  intros sg root. induction items as [|it items IH]; intros acc l H; cbn [cast_loop] in H.
  - injection H as <-. exists []. rewrite app_nil_r. split; [reflexivity | constructor].
  - rinv H name En. rinv H cn Ecn. rinv H role Erole. rinv H ord Eord.
    rinv H prof Eprof. rinv H thumb Eth.
    destruct (IH _ _ H) as [c [-> Hc]].
    eexists. rewrite <- app_assoc. split; [reflexivity|]. constructor; [|exact Hc].
    destruct it as [| | | | | d]; try discriminate En.
    unfold py_getitem, getitem in En, Eord. unfold py_get in Ecn, Erole.
    injection Ecn as <-. injection Erole as <-.
    exists d. split; [reflexivity|]. cbn [actor_name actor_role actor_order actor_thumb].
    destruct (dict_get d (u "name")); [|discriminate]. injection En as <-.
    destruct (dict_get d (u "order")); [|discriminate]. injection Eord as <-.
    repeat (split; [reflexivity|]).
    exists prof. split; [exact Eprof|].
    destruct prof as [| b | z | s | l' | d'];
      (split; [intros C; try discriminate C; cbn in Eth; congruence|]);
      intros C; try (exfalso; apply C; reflexivity);
      cbv beta iota in Eth; rinv Eth path Epath; unfold py_getitem, getitem in Epath;
      destruct (dict_get d (u "profile_path")) as [pp|]; try discriminate Epath;
      injection Epath as <-; destruct pp; try discriminate Eth;
      injection Eth as <-; eexists; split; reflexivity.
Qed.

(** X6: when [_set_cast] gets as far as [vtag.setCast(cast)], [cast] has
    one actor per entry of [cast_info], in order: its name and order are
    the entry's [name] and [order], its role is [character], else
    [character_name], else [''], and its thumbnail is [None] when
    [safe_get(item, 'profile_path')] is [None] and [IMAGEROOTURL] followed
    by the entry's [profile_path] otherwise. *)
Theorem set_cast_actors : forall safe_get IMAGEROOTURL cast_info cast,
  _set_cast safe_get IMAGEROOTURL cast_info = Ok cast ->
  exists items, py_iter cast_info = Ok items /\
                Forall2 (actor_of safe_get IMAGEROOTURL) items cast.
Proof.
  intros sg root ci cast H. unfold _set_cast in H. rinv H items Eitems.
  destruct (cast_loop_ok sg root items [] cast H) as [c [-> Hc]].
  exists items. split; [exact Eitems | exact Hc].
Qed.

(** ** [_check_youtube] *)

Lemma str_contains_iff : forall p s,
  str_contains p s = true <-> exists a b, s = a ++ p ++ b.
Proof.
  intros p s. split; [apply str_contains_split|].
  intros [a [b ->]]. induction a as [|c a IH]; cbn [app].
  - pose proof (is_prefix_app p b) as H. revert H.
    destruct (p ++ b); cbn [str_contains]; intros ->; reflexivity.
  - cbn [str_contains]. rewrite IH. apply orb_true_r.
Qed.

(** X7: [_check_youtube(key)] with a [str] key fetches exactly the watch
    URL of the key, once; on a [str] page it returns [True] exactly when
    the page is non-empty and does not contain ['Video unavailable'], and
    on a [None] answer it returns [False].  A key that is not a [str]
    raises [TypeError] before any fetch. *)
Theorem check_youtube_spec : forall load_text key,
  (forall k, key = PStr k ->
     fst (_check_youtube load_text key) = [YOUTUBE_WATCH ++ k] /\
     (forall s, load_text (YOUTUBE_WATCH ++ k) = PStr s ->
        exists b, snd (_check_youtube load_text key) = Ok b /\
                  (b = true <-> s <> [] /\ ~ exists a c, s = a ++ VIDEO_UNAVAILABLE ++ c)) /\
     (load_text (YOUTUBE_WATCH ++ k) = PNone -> snd (_check_youtube load_text key) = Ok false)) /\
  ((forall k, key <> PStr k) -> _check_youtube load_text key = ([], Exc TypeError)).
Proof.
  intros load_text key. split.
  - intros k ->. cbn [_check_youtube fst snd]. split; [reflexivity|]. split.
    + intros s Hs. rewrite Hs. cbn [truthy py_contains].
      destruct s as [|c s].
      * exists false. split; [reflexivity|]. split; [discriminate | intros [H _]; congruence].
      * cbn [length Nat.eqb negb]. destruct (str_contains VIDEO_UNAVAILABLE (c :: s)) eqn:E.
        -- exists false. split; [reflexivity|]. split; [discriminate|].
           intros [_ H]. exfalso. apply H, str_contains_iff, E.
        -- exists true. split; [reflexivity|]. split; [|reflexivity]. intros _.
           split; [discriminate|]. intros H. apply str_contains_iff in H. congruence.
    + intros Hn. rewrite Hn. reflexivity.
  - intros Hk. destruct key; try reflexivity. exfalso. apply (Hk s). reflexivity.
Qed.

(** ** Steps of the state monad *)

Lemma emit_inv : forall ev st a st',
  emit ev st = (Ok a, st') -> st' = mkSt (trace st ++ [ev]) (rec st).
Proof. intros ev st a st' H. unfold emit in H. congruence. Qed.

Lemma get_rec_inv : forall st a st', get_rec st = (Ok a, st') -> a = rec st /\ st' = st.
Proof. intros st a st' H. unfold get_rec in H. injection H as <- <-. split; reflexivity. Qed.

Lemma ret_inv : forall {A} (a : A) st b st', ret a st = (Ok b, st') -> b = a /\ st' = st.
Proof. intros A a st b st' H. unfold ret in H. injection H as <- <-. split; reflexivity. Qed.

Ltac minv H x s E :=
  apply bind_ok_inv in H; destruct H as [x [s [E H]]]; cbv beta iota zeta in H.

(** One step of a computation that ran without exception. *)
Ltac mstep H :=
  let x := fresh "x" in let s := fresh "s" in let E := fresh "E" in
  lazymatch type of H with
  | bind (emit _) _ _ = _ => minv H x s E; apply emit_inv in E; subst s
  | bind (lift _) _ _ = _ =>
      minv H x s E; apply lift_ok_inv in E; let Es := fresh "Es" in destruct E as [E Es]; subst s
  | bind get_rec _ _ = _ =>
      minv H x s E; apply get_rec_inv in E; let Es := fresh "Es" in destruct E as [E Es]; subst x s
  end.

(** ** [_set_rating] *)

Lemma rating_loop_ok : forall R types first st r st',
  rating_loop R first types st = (Ok r, st') ->
  rec st' = rec st /\
  exists l, trace st' = trace st ++ l /\ Forall positive_rating l /\ default_flags first l.
Proof.
  intros R. induction types as [|t types IH]; intros first st r st' H; cbn [rating_loop] in H.
  - apply ret_inv in H as [_ ->]. split; [reflexivity|].
    exists []. rewrite app_nil_r. repeat split; constructor.
  - repeat mstep H.
    destruct (Qlt_le_dec 0 x2) as [Hpos | Hle].
    + mstep H. destruct (IH _ _ _ _ H) as [Hr [l [Ht [Hp Hd]]]].
      cbn [rec trace] in Hr, Ht. split; [exact Hr|].
      eexists. rewrite Ht, <- app_assoc. split; [reflexivity|]. split.
      * constructor; [|exact Hp]. do 4 eexists. split; [reflexivity | exact Hpos].
      * split; [reflexivity|]. destruct l as [|e l]; [constructor|].
        destruct Hd as [He Hl]. constructor; assumption.
    + exact (IH _ _ _ _ H).
Qed.

(** X8: when [_set_rating] returns, the only calls it has made are
    [setRating] calls, each with a rating above 0; the first of them has
    [isDefault=True] and every later one [isDefault=False]. *)
Theorem set_rating_calls : forall R st r st',
  _set_rating R st = (Ok r, st') ->
  exists l, trace st' = trace st ++ l /\ Forall positive_rating l /\ default_flags true l.
Proof.
  intros R st r st' H. unfold _set_rating in H.
  destruct (rating_loop_ok R _ true st r st' H) as [_ Hl]. exact Hl.
Qed.

(** X9: with a runtime whose [float('0')] is [0] and whose [int('0')]
    succeeds, [_set_rating] on a record without a [ratings] key makes no
    call and raises nothing. *)
Theorem set_rating_no_ratings : forall R st,
  py_float R (PStr (u "0")) = Some 0%Q ->
  int_of_str R (u "0") <> None ->
  dict_get (rec st) (u "ratings") = None ->
  _set_rating R st = (Ok tt, st).
Proof.
  intros R st Hf Hi Hr. unfold _set_rating. generalize true.
  induction (rating_types R) as [|t ts IH]; intros first; [reflexivity|].
  cbn [rating_loop]. unfold bind at 1, get_rec.
  unfold py_get at 1, dict_get_default at 1. rewrite Hr.
  cbn [py_get dict_get_default dict_get lift bind ret].
  unfold bind at 1. cbn [lift]. rewrite Hf. cbn [lift bind ret].
  unfold bind at 1. cbn [lift]. unfold bind at 1, py_get at 1, dict_get_default at 1. rewrite Hr.
  cbn [py_get dict_get_default dict_get lift ret].
  unfold bind at 1. unfold bind at 1. cbn [lift py_int].
  destruct (int_of_str R (u "0")) as [z|]; [|congruence]. cbn [lift ret].
  destruct (Qlt_le_dec 0 0) as [C|_]; [exfalso; apply (Qlt_irrefl 0), C|].
  apply IH.
Qed.

(** ** [_add_season_info] *)

Lemma season_loop_ok : forall R items acc st v st',
  season_loop R acc items st = (Ok v, st') ->
  exists ds adds,
    items = map PDict ds /\
    v = acc ++ map (fun a => PDict [(u "season_num", PInt (fst a)); (u "season_name", snd a)]) adds /\
    trace st' = trace st ++ map (fun a => AddSeason (fst a) (snd a)) adds /\
    rec st' = rec st /\
    Forall (fun a => exists s, snd a = PStr s /\ int_of_str R (firstn 4 s) = Some (fst a)) adds /\
    map snd adds = filter truthy (map (fun d => dict_get_default d (u "strSeason") PNone) ds).
Proof.
  intros R. induction items as [|it items IH]; intros acc st v st' H; cbn [season_loop] in H.
  - apply ret_inv in H as [-> ->]. exists [], [].
    rewrite !app_nil_r. repeat split; constructor.
  - minv H name s1 En. apply lift_ok_inv in En as [En ->].
    destruct it as [| | | | | d]; try discriminate En. cbn [py_get] in En. injection En as En.
    destruct (truthy name) eqn:Et.
    + minv H s4 s2 Es4. apply lift_ok_inv in Es4 as [Es4 ->].
      minv H n s3 En'. apply lift_ok_inv in En' as [En' ->].
      minv H t s4' Ee. apply emit_inv in Ee. subst s4'.
      destruct (IH _ _ _ _ H) as [ds [adds [-> [-> [Ht [Hr [Hok Hn]]]]]]].
      cbn [rec trace] in Ht, Hr.
      exists (d :: ds), ((n, name) :: adds).
      split; [reflexivity|]. split; [rewrite <- app_assoc; reflexivity|].
      split; [rewrite Ht, <- app_assoc; reflexivity|]. split; [exact Hr|].
      split.
      * constructor; [|exact Hok]. cbn [fst snd].
        destruct name as [| | | s | l | d']; cbn [slice_to] in Es4; try discriminate Es4.
        -- injection Es4 as <-. change (py_int R (PStr (firstn 4 s)) = Ok n) in En'.
           unfold py_int in En'.
           destruct (int_of_str R (firstn 4 s)) eqn:Ei; [|discriminate En'].
           injection En' as <-. exists s. split; [reflexivity | exact Ei].
        -- injection Es4 as <-. unfold py_int in En'. discriminate En'.
      * cbn [map filter snd]. rewrite En, Et, Hn. reflexivity.
    + destruct (IH _ _ _ _ H) as [ds [adds [-> [-> [Ht [Hr [Hok Hn]]]]]]].
      exists (d :: ds), adds. repeat split; try assumption.
      cbn [map filter]. rewrite En, Et. exact Hn.
Qed.

(** X10: when [_add_season_info] returns a list, the fetch answered a dict
    whose [seasons] entry iterates to dicts; the seasons registered with
    [addSeason], in order, are those whose [strSeason] is truthy, each
    with [int()] of the first 4 characters of that [str]; the returned list
    holds the same [(season_num, season_name)] pairs in the same order. *)
Theorem add_season_info_seasons : forall R load st seasons st',
  _add_season_info R load st = (Ok (PList seasons), st') ->
  exists d ds adds,
    load (season_params (rec st)) = PDict d /\
    py_iter (dict_get_default d (u "seasons") PNone) = Ok (map PDict ds) /\
    map snd adds = filter truthy (map (fun sd => dict_get_default sd (u "strSeason") PNone) ds) /\
    Forall (fun a => exists s, snd a = PStr s /\ int_of_str R (firstn 4 s) = Some (fst a)) adds /\
    trace st' = trace st ++ LoadInfo (season_params (rec st)) ::
                map (fun a => AddSeason (fst a) (snd a)) adds /\
    seasons = map (fun a => PDict [(u "season_num", PInt (fst a)); (u "season_name", snd a)]) adds.
Proof.
  intros R load st seasons st' H. unfold _add_season_info in H.
  minv H si s1 Esi. apply get_rec_inv in Esi as [-> ->].
  minv H t s2 Ee. apply emit_inv in Ee. subst s2.
  destruct (load (season_params (rec st))) as [| | | | | d] eqn:El;
    try (apply ret_inv in H as [H _]; discriminate H);
    minv H sv s3 Esv; apply lift_ok_inv in Esv as [Esv ->]; try discriminate Esv.
  cbn [py_get] in Esv. injection Esv as Esv.
  minv H items s4 Ei. apply lift_ok_inv in Ei as [Ei ->].
  minv H v s5 Ev. apply ret_inv in H as [Hv ->]. injection Hv as ->.
  destruct (season_loop_ok R items [] _ _ _ Ev) as [ds [adds [-> [-> [Ht [_ [Hok Hn]]]]]]].
  exists d, ds, adds. rewrite Esv. repeat split; try assumption.
  rewrite Ht. cbn [trace]. rewrite <- app_assoc. reflexivity.
Qed.

(** ** [add_main_show_info] with [full_info] *)






(** X12: a show dict with no [idLeague] key makes [add_main_show_info]
    raise [KeyError] after the six calls that set the title, original
    title, show title, plot, plot outline and media type, whatever
    [full_info] is: no year is set, no season fetch is made, and the show
    dict is left unchanged. *)
Theorem add_main_show_info_no_id : forall R load li full st,
  dict_get (rec st) (u "idLeague") = None ->
  (forall v, dict_get (rec st) (u "strDescriptionEN") = Some v -> exists s, v = PStr s) ->
  let showname := dict_get_default (rec st) (u "strLeague") PNone in
  let plot := _clean_plot (str_field (rec st) (u "strDescriptionEN") []) in
  add_main_show_info R load li full st =
  (Exc KeyError,
   mkSt (trace st ++ [SetTitle showname; SetOriginalTitle showname; SetTvShowTitle showname;
                      SetPlot plot; SetPlotOutline plot; SetMediaType (u "tvshow")])
        (rec st)).
Proof.
  intros R load li full [tr d] Hid Hdesc showname plot. cbn [rec trace] in *.
  assert (Hpl : clean_plot_v (dict_get_default d (u "strDescriptionEN") (PStr [])) = Ok plot).
  { unfold plot, str_field, dict_get_default.
    destruct (dict_get d (u "strDescriptionEN")) as [v|] eqn:E; [|reflexivity].
    destruct (Hdesc v eq_refl) as [s ->]. reflexivity. }
  assert (Hgi : getitem d (u "idLeague") = Exc KeyError) by (unfold getitem; rewrite Hid; reflexivity).
  unfold add_main_show_info. rewrite bind_get_rec. cbn [rec].
  fold showname. rewrite Hpl, bind_lift_ok.
  repeat rewrite bind_emit. rewrite Hgi, bind_lift_exc. cbn [trace rec].
  repeat rewrite <- app_assoc. reflexivity.
Qed.

(** X13: when [strEpisode] is present but not a [str], [add_episode_info]
    raises [TypeError] before any host call, even when [strEvent] is
    present, because the default title ['Episode ' + episode] is built
    first; the episode dict is unchanged. *)
Theorem add_episode_info_episode_not_str : forall R li full st v,
  (exists sv, slice_to 4 (dict_get_default (rec st) (u "strSeason") (PStr (u "0000"))) = Ok sv) ->
  dict_get (rec st) (u "strEpisode") = Some v ->
  (forall s, v <> PStr s) ->
  add_episode_info R li full st = (Exc TypeError, st).
Proof.
  intros R li full [tr d] v [sv Hs] He Hv. cbn [rec] in *.
  unfold add_episode_info. rewrite bind_get_rec. cbn [rec].
  rewrite Hs, bind_lift_ok. cbv beta zeta.
  assert (Ha : str_add (u "Episode ") (dict_get_default d (u "strEpisode") (PStr (u "0"))) = Exc TypeError).
  { unfold dict_get_default. rewrite He.
    destruct v as [| | | s | |]; try reflexivity. exfalso. exact (Hv s eq_refl). }
  rewrite Ha, bind_lift_exc. reflexivity.
Qed.

(** ** Witnesses of the extra properties *)


(** X4 on the same show: [Bob], a writer, is in the result. *)
Lemma get_credits_has_writers_witness :
  py_in (PStr (u "Bob")) [PStr (u "Ann"); PStr (u "Bob")] = true.
Proof.
  destruct (get_credits_has_writers R0 show_credits0 [PStr (u "Ann"); PStr (u "Bob")]
              ltac:(vm_compute; reflexivity)) as [crew [Ec Hw]].
  vm_compute in Ec. injection Ec as <-.
  apply (Hw [(u "name", PStr (u "Bob")); (u "job", PStr (u "Writer"))]).
  - left. reflexivity.
  - reflexivity.
  - left. eexists. split; reflexivity.
Defined.

(** X5 on the same show: the one director is returned. *)
Lemma get_directors_spec_witness :
  _get_directors show_credits0 = Ok [PStr (u "Cy")].
Proof.
  rewrite (get_directors_spec show_credits0
             [[(u "name", PStr (u "Bob")); (u "job", PStr (u "Writer"))];
              [(u "name", PStr (u "Ann")); (u "department", PStr (u "Writing"))];
              [(u "name", PStr (u "Cy")); (u "job", PStr (u "Director"))]] eq_refl).
  vm_compute. reflexivity.
Defined.

(** X6 on a sample cast: the second actor has no [profile_path] and no
    thumbnail. *)
Lemma set_cast_actors_witness :
  exists cast,
    _set_cast safe_get0 (u "https://img") cast0 = Ok cast /\
    exists items, py_iter cast0 = Ok items /\
                  Forall2 (actor_of safe_get0 (u "https://img")) items cast.
Proof.
  eexists. split; [vm_compute; reflexivity|].
  apply set_cast_actors. vm_compute. reflexivity.
Defined.

(** X8 on a sample league: the positive [imdb] rating is set as default,
    the zero [tmdb] rating is skipped. *)
Lemma set_rating_calls_witness :
  fst (_set_rating R0 (mkSt [] league_rated)) = Ok tt /\
  exists l, trace (snd (_set_rating R0 (mkSt [] league_rated))) = [] ++ l /\
            Forall positive_rating l /\ default_flags true l.
Proof.
  split; [vm_compute; reflexivity|].
  apply (set_rating_calls R0 (mkSt [] league_rated) tt).
  vm_compute. reflexivity.
Defined.

(** X9 on the sample league, which has no [ratings]. *)
Lemma set_rating_no_ratings_witness :
  dict_get league0 (u "ratings") = None /\
  _set_rating R0 (mkSt [] league0) = (Ok tt, mkSt [] league0).
Proof.
  split; [reflexivity|].
  apply set_rating_no_ratings.
  - reflexivity.
  - vm_compute. discriminate.
  - reflexivity.
Defined.

(** X10 on a season lookup answering one named and one unnamed season. *)
Lemma add_season_info_seasons_witness :
  fst (_add_season_info R0 load_seasons0 (mkSt [] league0)) =
    Ok (PList [PDict [(u "season_num", PInt 2023); (u "season_name", PStr (u "2023-2024"))]]) /\
  exists d ds adds,
    load_seasons0 (season_params league0) = PDict d /\
    py_iter (dict_get_default d (u "seasons") PNone) = Ok (map PDict ds) /\
    map snd adds = filter truthy (map (fun sd => dict_get_default sd (u "strSeason") PNone) ds) /\
    Forall (fun a => exists s, snd a = PStr s /\ int_of_str R0 (firstn 4 s) = Some (fst a)) adds /\
    trace (snd (_add_season_info R0 load_seasons0 (mkSt [] league0))) =
      [] ++ LoadInfo (season_params league0) :: map (fun a => AddSeason (fst a) (snd a)) adds /\
    [PDict [(u "season_num", PInt 2023); (u "season_name", PStr (u "2023-2024"))]] =
      map (fun a => PDict [(u "season_num", PInt (fst a)); (u "season_name", snd a)]) adds.
Proof.
  split; [vm_compute; reflexivity|].
  apply (add_season_info_seasons R0 load_seasons0 (mkSt [] league0)).
  vm_compute. reflexivity.
Defined.


(** X12 on a league record without [idLeague]. *)
Lemma add_main_show_info_no_id_witness :
  fst (add_main_show_info R0 load_seasons0 li0 true (mkSt [] league_noid)) = Exc KeyError.
Proof.
  rewrite (add_main_show_info_no_id R0 load_seasons0 li0 true (mkSt [] league_noid)).
  - reflexivity.
  - reflexivity.
  - intros v Hv. injection Hv as <-. eexists. reflexivity.
Defined.

(** X13 on an event record whose [strEpisode] is the [int] 5. *)
Lemma add_episode_info_episode_not_str_witness :
  add_episode_info R0 li0 true (mkSt [] event_intepisode) =
  (Exc TypeError, mkSt [] event_intepisode).
Proof.
  apply (add_episode_info_episode_not_str R0 li0 true (mkSt [] event_intepisode) (PInt 5)).
  - eexists. reflexivity.
  - reflexivity.
  - discriminate.
Defined.
